(** * SecuDNS-Suite: the DNS scan of [dns_security_suite.py]

    A shallow embedding of the scanner's functions and of its [main], with the
    network, the file system and the thread pool's scheduling taken as
    parameters, followed by the properties of the scan that were checked
    against it. *)

From Stdlib Require Import Ascii String ZArith Lia.
From stdpp Require Import base tactics option list strings pretty.

(** ** Python values and exceptions *)

(** A computation that may raise.  An exception is kept as its [str(e)],
    which is all the program ever does with one. *)
Inductive Result (A : Type) : Type :=
| Ok (a : A)
| Raise (e : string).
Arguments Ok {A} a.
Arguments Raise {A} e.

#[global] Instance Result_bind : MBind Result := fun A B k m =>
  match m with
  | Ok a => k a
  | Raise e => Raise e
  end.

(** A list comprehension whose element expression may raise: the first
    exception leaves the comprehension. *)
Fixpoint comprehension {A B : Type} (f : A -> Result B) (l : list A)
  : Result (list B) :=
  match l with
  | [] => Ok []
  | a :: l' => b ← f a; bs ← comprehension f l'; Ok (b :: bs)
  end.

(** The elements found in a record list: [str] objects and, for the SOA
    serial, an [int]. *)
Inductive PyVal : Type :=
| PyStr (s : string)
| PyInt (n : Z).

(** What [records[rtype]] holds: a list, or the [str] of the error branch. *)
Inductive RecordValue : Type :=
| Values (l : list PyVal)
| ErrorText (s : string).

(** Truthiness of an optional command-line string ([None] and [''] are
    false). *)
Definition truthy (o : option string) : bool :=
  match o with
  | Some s => negb (String.eqb s "")
  | None => false
  end.

(** ** Insertion-ordered dictionaries with [str] keys *)

Module PyDict.
Section Dict.
Context {V : Type}.

Definition t : Type := list (string * V).

Definition empty : t := [].

(** [d[k] = v]: an existing key keeps its position. *)
Fixpoint set (k : string) (v : V) (d : t) : t :=
  match d with
  | [] => [(k, v)]
  | (k', v') :: d' =>
      if String.eqb k k' then (k, v) :: d' else (k', v') :: set k v d'
  end.

Fixpoint get (k : string) (d : t) : option V :=
  match d with
  | [] => None
  | (k', v') :: d' => if String.eqb k k' then Some v' else get k d'
  end.

Definition keys (d : t) : list string := map fst d.

Definition items (d : t) : list (string * V) := d.
End Dict.
Arguments t V : clear implicits.
End PyDict.

(** ** The logging sink *)

Inductive Level : Type := INFO | WARNING | ERROR.

(** One constructor per [logging] call of the program, carrying the values
    interpolated into its message. *)
Inductive LogMsg : Type :=
| FetchedRecords (rtype domain : string) (v : list PyVal)
| ErrorFetching (rtype domain e : string)
| NameserversFor (domain : string) (ns : list string)
| FailedToFetchNS (domain e : string)
| ZoneTransferAllowed (nameserver domain : string)
| ZoneTransferDenied (nameserver domain : string)
| InventoryNotFound (path : string)
| LoadedInventory (n : nat)
| ErrorAnalyzing (dom e : string)
| Jinja2NotInstalled
| PandasNotInstalled
| HtmlReportWritten (output : string)
| XlsxReportWritten (output : string)
| AlertEmailSent (to_addr : option string)
| FailedToSendEmail (e : string).

Definition Log : Type := list (Level * LogMsg).

(** ** DNS answers *)

(** The rdata objects of an answer, with the attributes the program reads.
    Domain names are kept in their text form, and [TXT] as the text
    [to_text()] renders. *)
Inductive Rdata : Type :=
| RD_A (address : string)
| RD_AAAA (address : string)
| RD_MX (preference : Z) (exchange : string)
| RD_TXT (text : string)
| RD_NS (target : string)
| RD_CNAME (target : string)
| RD_SOA (mname rname : string) (serial refresh retry expire minimum : Z)
| RD_SRV (priority weight port : Z) (target : string)
| RD_PTR (target : string).

Definition class_name (r : Rdata) : string :=
  match r with
  | RD_A _ => "A" | RD_AAAA _ => "AAAA" | RD_MX _ _ => "MX"
  | RD_TXT _ => "TXT" | RD_NS _ => "NS" | RD_CNAME _ => "CNAME"
  | RD_SOA _ _ _ _ _ _ _ => "SOA" | RD_SRV _ _ _ _ => "SRV"
  | RD_PTR _ => "PTR"
  end.

Definition AttributeError {A : Type} (r : Rdata) (attr : string) : Result A :=
  Raise ("'" +:+ class_name r +:+ "' object has no attribute '" +:+ attr +:+ "'").

Definition address (r : Rdata) : Result string :=
  match r with
  | RD_A a | RD_AAAA a => Ok a
  | _ => AttributeError r "address"
  end.

Definition exchange (r : Rdata) : Result string :=
  match r with
  | RD_MX _ x => Ok x
  | _ => AttributeError r "exchange"
  end.

Definition target (r : Rdata) : Result string :=
  match r with
  | RD_NS t | RD_CNAME t | RD_PTR t | RD_SRV _ _ _ t => Ok t
  | _ => AttributeError r "target"
  end.

Definition priority (r : Rdata) : Result Z :=
  match r with
  | RD_SRV p _ _ _ => Ok p
  | _ => AttributeError r "priority"
  end.

Definition weight (r : Rdata) : Result Z :=
  match r with
  | RD_SRV _ w _ _ => Ok w
  | _ => AttributeError r "weight"
  end.

Definition port (r : Rdata) : Result Z :=
  match r with
  | RD_SRV _ _ p _ => Ok p
  | _ => AttributeError r "port"
  end.

Definition mname (r : Rdata) : Result string :=
  match r with
  | RD_SOA m _ _ _ _ _ _ => Ok m
  | _ => AttributeError r "mname"
  end.

Definition rname (r : Rdata) : Result string :=
  match r with
  | RD_SOA _ m _ _ _ _ _ => Ok m
  | _ => AttributeError r "rname"
  end.

Definition serial (r : Rdata) : Result Z :=
  match r with
  | RD_SOA _ _ s _ _ _ _ => Ok s
  | _ => AttributeError r "serial"
  end.

(** [str(n)] of an [int]. *)
Definition str_int (n : Z) : string := pretty n.

(** [r.to_text()], which every rdata class has. *)
Definition to_text (r : Rdata) : string :=
  match r with
  | RD_A a | RD_AAAA a => a
  | RD_MX p x => str_int p +:+ " " +:+ x
  | RD_TXT t => t
  | RD_NS t | RD_CNAME t | RD_PTR t => t
  | RD_SOA m r s rf rt ex mi =>
      m +:+ " " +:+ r +:+ " " +:+ str_int s +:+ " " +:+ str_int rf +:+ " "
        +:+ str_int rt +:+ " " +:+ str_int ex +:+ " " +:+ str_int mi
  | RD_SRV p w po t =>
      str_int p +:+ " " +:+ str_int w +:+ " " +:+ str_int po +:+ " " +:+ t
  end.

(** What [dns.resolver.resolve(domain, rtype)] does for one call: an answer,
    or an exception (NXDOMAIN, NoAnswer, Timeout, ...). *)
Definition Resolver : Type := string -> string -> Result (list Rdata).

(** [answers[0]]. *)
Definition first_answer (answers : list Rdata) : Result Rdata :=
  match answers with
  | r :: _ => Ok r
  | [] => Raise "list index out of range"
  end.

(** ** [analyze_dns_records] *)

Definition types : list string :=
  ["A"; "AAAA"; "MX"; "TXT"; "NS"; "CNAME"; "SOA"; "SRV"; "PTR"].

Definition str_in (s : string) (l : list string) : bool :=
  existsb (String.eqb s) l.

(** The [if]/[elif] chain of the [try] block.  With no branch taken nothing
    is stored, and the [logging.info] that follows raises [KeyError]. *)
Definition format_answers (rtype : string) (answers : list Rdata)
  : Result (list PyVal) :=
  if str_in rtype ["A"; "AAAA"] then
    comprehension (fun r => a ← address r; Ok (PyStr a)) answers
  else if String.eqb rtype "MX" then
    comprehension (fun r => x ← exchange r; Ok (PyStr x)) answers
  else if String.eqb rtype "TXT" then
    comprehension (fun r => Ok (PyStr (to_text r))) answers
  else if String.eqb rtype "NS" then
    comprehension (fun r => t ← target r; Ok (PyStr t)) answers
  else if String.eqb rtype "CNAME" then
    comprehension (fun r => t ← target r; Ok (PyStr t)) answers
  else if String.eqb rtype "SOA" then
    soa ← first_answer answers;
    m ← mname soa; r ← rname soa; s ← serial soa;
    Ok [PyStr m; PyStr r; PyInt s]
  else if String.eqb rtype "SRV" then
    comprehension
      (fun r => p ← priority r; w ← weight r; po ← port r;
                t ← target r;
                Ok (PyStr (str_int p +:+ " " +:+ str_int w +:+ " "
                             +:+ str_int po +:+ " " +:+ t)))
      answers
  else if String.eqb rtype "PTR" then
    comprehension (fun r => t ← target r; Ok (PyStr t)) answers
  else Raise ("'" +:+ rtype +:+ "'").

(** The body of the [try]. *)
Definition query (resolve : Resolver) (domain rtype : string)
  : Result (list PyVal) :=
  answers ← resolve domain rtype; format_answers rtype answers.

(** The value and the log line one pass of the loop leaves for [rtype]. *)
Definition record_for (resolve : Resolver) (domain rtype : string)
  : RecordValue * (Level * LogMsg) :=
  match query resolve domain rtype with
  | Ok vals => (Values vals, (INFO, FetchedRecords rtype domain vals))
  | Raise e =>
      (ErrorText ("Error: " +:+ e), (ERROR, ErrorFetching rtype domain e))
  end.

Definition analyze_step (resolve : Resolver) (domain : string)
    (st : PyDict.t RecordValue * Log) (rtype : string)
  : PyDict.t RecordValue * Log :=
  let '(v, line) := record_for resolve domain rtype in
  (PyDict.set rtype v (fst st), snd st ++ [line]).

Definition analyze_dns_records (resolve : Resolver) (domain : string)
  : PyDict.t RecordValue * Log :=
  foldl (analyze_step resolve domain) (PyDict.empty, []) types.

(** ** [get_nameservers] and [check_zone_transfer] *)

Definition get_nameservers (resolve : Resolver) (domain : string)
  : list string * Log :=
  match answers ← resolve domain "NS"; comprehension target answers with
  | Ok ns => (ns, [(INFO, NameserversFor domain ns)])
  | Raise e => ([], [(ERROR, FailedToFetchNS domain e)])
  end.

(** The line boundaries of [str.splitlines] among the code points below 256
    (a [string] here is a sequence of such code points): LF, VT, FF, CR, FS,
    GS, RS and NEL. *)
Definition is_linebreak (c : ascii) : bool :=
  let n := nat_of_ascii c in
  (Nat.leb 10 n && Nat.leb n 13) || (Nat.leb 28 n && Nat.leb n 30)
  || Nat.eqb n 133.

Definition snoc (s : string) (c : ascii) : string := s +:+ String c "".

(** [splitlines_from cur s]: the lines of [cur + s], where [cur] is the part
    of the current line already read.  CR LF is one boundary, and a final
    boundary opens no empty line. *)
Fixpoint splitlines_from (cur s : string) : list string :=
  match s with
  | "" => if String.eqb cur "" then [] else [cur]
  | String c rest =>
      if is_linebreak c then
        match rest with
        | String c' rest' =>
            if Nat.eqb (nat_of_ascii c) 13 && Nat.eqb (nat_of_ascii c') 10
            then cur :: splitlines_from "" rest'
            else cur :: splitlines_from "" rest
        | "" => [cur]
        end
      else splitlines_from (snoc cur c) rest
  end.

Definition splitlines (s : string) : list string := splitlines_from "" s.

(** What [dns.zone.from_xfr(dns.query.xfr(nameserver, domain, timeout=5))]
    followed by [to_text()] does for one call: the zone's text, or the
    exception of a refused, timed out, unreachable or malformed transfer. *)
Definition XfrClient : Type := string -> string -> Result string.

Definition check_zone_transfer (xfr : XfrClient) (domain nameserver : string)
  : list string * Log :=
  match xfr nameserver domain with
  | Ok text =>
      (splitlines text, [(WARNING, ZoneTransferAllowed nameserver domain)])
  | Raise _ => ([], [(INFO, ZoneTransferDenied nameserver domain)])
  end.

(** ** [load_inventory] *)

Inductive FileState : Type :=
| Missing
| Readable (content : string)
| Unreadable (e : string).

(** [str.isspace] on the code points below 256. *)
Definition is_space (c : ascii) : bool :=
  let n := nat_of_ascii c in
  (Nat.leb 9 n && Nat.leb n 13) || (Nat.leb 28 n && Nat.leb n 32)
  || Nat.eqb n 133 || Nat.eqb n 160.

Fixpoint lstrip (s : string) : string :=
  match s with
  | String c rest => if is_space c then lstrip rest else s
  | "" => ""
  end.

Fixpoint rstrip (s : string) : string :=
  match s with
  | String c rest =>
      let rest' := rstrip rest in
      if is_space c && String.eqb rest' "" then "" else String c rest'
  | "" => ""
  end.

Definition strip (s : string) : string := rstrip (lstrip s).

(** Iterating a text file: lines end at LF, CR or CR LF, each read as a
    final LF; a last line without terminator is a line too. *)
Fixpoint readlines_from (cur s : string) : list string :=
  match s with
  | "" => if String.eqb cur "" then [] else [cur]
  | String c rest =>
      if Nat.eqb (nat_of_ascii c) 10 then
        snoc cur c :: readlines_from "" rest
      else if Nat.eqb (nat_of_ascii c) 13 then
        match rest with
        | String c' rest' =>
            if Nat.eqb (nat_of_ascii c') 10
            then snoc cur c' :: readlines_from "" rest'
            else snoc cur (ascii_of_nat 10) :: readlines_from "" rest
        | "" => [snoc cur (ascii_of_nat 10)]
        end
      else readlines_from (snoc cur c) rest
  end.

Definition readlines (s : string) : list string := readlines_from "" s.

Definition nonempty (s : string) : bool := negb (String.eqb s "").

(** [open] raises on a file that exists and cannot be read; nothing in the
    program catches that. *)
Definition load_inventory (fs : string -> FileState) (path : string)
  : Result (list string) * Log :=
  match fs path with
  | Missing => (Ok [], [(ERROR, InventoryNotFound path)])
  | Unreadable e => (Raise e, [])
  | Readable content =>
      let domains :=
        map strip (filter (fun line => nonempty (strip line) = true)
                          (readlines content)) in
      (Ok domains, [(INFO, LoadedInventory (length domains))])
  end.

(** ** The thread pool *)

Abbreviation Records := (PyDict.t RecordValue).
Abbreviation Results := (PyDict.t (PyDict.t RecordValue)).

(** What [future.result()] does. *)
Inductive FutureResult : Type :=
| Returned (recs : Records)
| Raised (e : string).

(** A submitted call [analyze_dns_records(dom)]: [task] is its position in
    the submission order, and tells apart two futures of one domain. *)
Record Future : Type := {
  task : nat;
  dom : string;
  outcome : FutureResult;
  worker_log : Log
}.

(** [as_completed]: the pool finishes the pending futures one at a time, in
    an order of its own; at step [k] the scheduler [sched] names which of the
    futures still pending comes next. *)
Fixpoint complete {A : Type} (sched : nat -> nat) (k fuel : nat)
    (pending : list A) : list A :=
  match fuel with
  | O => []
  | S fuel' =>
      let i := sched k mod length pending in
      match pending !! i with
      | Some f => f :: complete sched (S k) fuel' (delete i pending)
      | None => []
      end
  end.

Definition as_completed {A : Type} (sched : nat -> nat) (futures : list A)
  : list A :=
  complete sched 0 (length futures) futures.

(** The body of the [for future in as_completed(future_map)] loop. *)
Definition collect_step (st : Results * Log) (f : Future) : Results * Log :=
  match outcome f with
  | Returned recs => (PyDict.set (dom f) recs (fst st), snd st)
  | Raised e => (fst st, snd st ++ [(ERROR, ErrorAnalyzing (dom f) e)])
  end.

Definition collect (completed : list Future) : Results * Log :=
  foldl collect_step (PyDict.empty, []) completed.

(** ** The alert *)

(** The separator of the join that builds the message text: one newline. *)
Definition LF : string := String (ascii_of_nat 10) "".

Definition alert_line (dom nsrv : string) : string :=
  "[ALERT] " +:+ dom +:+ " allows zone transfer on " +:+ nsrv.

(** Truthiness of a list. *)
Definition nonempty_list {A : Type} (l : list A) : bool :=
  match l with
  | [] => false
  | _ :: _ => true
  end.

(** The body of [for nsrv in ns]. *)
Definition probe_step (xfr : XfrClient) (dom : string)
    (st : list string * Log) (nsrv : string) : list string * Log :=
  let '(z, l) := check_zone_transfer xfr dom nsrv in
  (if nonempty_list z then fst st ++ [alert_line dom nsrv] else fst st,
   snd st ++ l).

(** The body of [for dom, recs in results.items()]. *)
Definition alert_step (resolve : Resolver) (xfr : XfrClient)
    (st : list string * Log) (item : string * Records) : list string * Log :=
  let '(ns, l) := get_nameservers resolve (fst item) in
  foldl (probe_step xfr (fst item)) (fst st, snd st ++ l) ns.

Definition alert_body (resolve : Resolver) (xfr : XfrClient)
    (results : Results) : list string * Log :=
  foldl (alert_step resolve xfr) ([], []) (PyDict.items results).

(** [if body:] and the message text handed to the mailer. *)
Definition decide_alert (resolve : Resolver) (xfr : XfrClient)
    (results : Results) : option string * Log :=
  let '(body, l) := alert_body resolve xfr results in
  (if nonempty_list body then Some (String.concat LF body) else None, l).

Record Mail : Type := {
  mail_server : option string;
  mail_port : Z;
  mail_user : option string;
  mail_password : option string;
  mail_to : option string;
  mail_subject : string;
  mail_body : string
}.

(** [smtp m] is the exception the SMTP exchange for [m] ends in, if any. *)
Definition send_email_notification (smtp : Mail -> option string) (m : Mail)
  : Log :=
  match smtp m with
  | None => [(INFO, AlertEmailSent (mail_to m))]
  | Some e => [(ERROR, FailedToSendEmail e)]
  end.

(** ** The command line and the world around one run *)

Inductive ReportFormat : Type := html | xlsx.

Module Args.
Record t : Type := {
  domain : option string;
  inventory : option string;
  zone_transfer : bool;
  history : bool;
  email_security : bool;
  report : option ReportFormat;
  report_out : string;
  alert_email : bool;
  smtp_server : option string;
  smtp_port : Z;
  smtp_user : option string;
  smtp_pass : option string;
  to_email : option string
}.
End Args.

Record World : Type := {
  (** the file system at [load_inventory] *)
  fs : string -> FileState;
  (** the resolver as it answers the [i]-th submitted task *)
  task_resolver : nat -> Resolver;
  (** an exception leaving the [i]-th task: the handlers of
      [analyze_dns_records] catch what the resolver and the formatting
      raise, so this stands for one raised anywhere else in the worker *)
  task_fault : nat -> option string;
  (** the order in which the pool completes the tasks *)
  sched : nat -> nat;
  (** the resolver and the transfer client during the alert pass *)
  alert_resolver : Resolver;
  xfr_client : XfrClient;
  (** whether [pandas] and [jinja2] were imported *)
  optional_libs : bool;
  (** the exception writing a report to a path ends in, if any *)
  report_fault : string -> option string;
  smtp : Mail -> option string
}.

Definition run_task (w : World) (i : nat) (d : string) : Future :=
  let '(recs, l) := analyze_dns_records (task_resolver w i) d in
  match task_fault w i with
  | Some e => {| task := i; dom := d; outcome := Raised e; worker_log := [] |}
  | None =>
      {| task := i; dom := d; outcome := Returned recs; worker_log := l |}
  end.

(** [{executor.submit(analyze_dns_records, d): d for d in domains}] *)
Definition submit_all (w : World) (domains : list string) : list Future :=
  imap (run_task w) domains.

(** Lines 172 to 182 of [main]. *)
Definition scan_all (w : World) (domains : list string) : Results * Log :=
  collect (as_completed (sched w) (submit_all w domains)).

(** ** Reports *)

(** The renderers are not modelled: a report is the file written, with the
    results rendered into it. *)
Definition generate_html_report (w : World) (results : Results)
    (output : string) : Result (list (string * Results)) * Log :=
  if optional_libs w then
    match report_fault w output with
    | Some e => (Raise e, [])
    | None => (Ok [(output, results)], [(INFO, HtmlReportWritten output)])
    end
  else (Ok [], [(ERROR, Jinja2NotInstalled)]).

Definition generate_xlsx_report (w : World) (results : Results)
    (output : string) : Result (list (string * Results)) * Log :=
  if optional_libs w then
    match report_fault w output with
    | Some e => (Raise e, [])
    | None => (Ok [(output, results)], [(INFO, XlsxReportWritten output)])
    end
  else (Ok [], [(ERROR, PandasNotInstalled)]).

(** ** [main] *)

Definition LOG_FILE : string := "dns_suite.log".

(** What one call of [main] did. *)
Record Run : Type := {
  printed : list string;
  main_log : Log;
  futures : list Future;
  results : Results;
  reports : list (string * Results);
  mails : list Mail;
  uncaught : option string
}.

Definition given (o : option string) : option string :=
  match o with
  | Some s => if nonempty s then Some s else None
  | None => None
  end.

(** Lines 163 to 170: [None] is the branch that prints and returns. *)
Definition determine_domains (w : World) (args : Args.t)
  : Result (option (list string)) * Log :=
  match given (Args.inventory args) with
  | Some path =>
      let '(r, l) := load_inventory (fs w) path in
      (domains ← r; Ok (Some domains), l)
  | None =>
      match given (Args.domain args) with
      | Some d => (Ok (Some [d]), [])
      | None => (Ok None, [])
      end
  end.

(** Lines 185 to 188. *)
Definition reporting (w : World) (args : Args.t) (res : Results)
  : Result (list (string * Results)) * Log :=
  match Args.report args with
  | Some html => generate_html_report w res (Args.report_out args)
  | Some xlsx => generate_xlsx_report w res (Args.report_out args)
  | None => (Ok [], [])
  end.

(** Lines 191 to 206. *)
Definition alerting (w : World) (args : Args.t) (res : Results)
  : list Mail * Log :=
  if Args.alert_email args && truthy (Args.smtp_server args) then
    let '(alert, l) := decide_alert (alert_resolver w) (xfr_client w) res in
    match alert with
    | Some text =>
        let m := {| mail_server := Args.smtp_server args;
                    mail_port := Args.smtp_port args;
                    mail_user := Args.smtp_user args;
                    mail_password := Args.smtp_pass args;
                    mail_to := Args.to_email args;
                    mail_subject := "DNS Suite Alert";
                    mail_body := text |} in
        ([m], l ++ send_email_notification (smtp w) m)
    | None => ([], l)
    end
  else ([], []).

Definition summary (domains : list string) : string :=
  "Analysis complete for " +:+ pretty (length domains)
    +:+ " domain(s). See logs: " +:+ LOG_FILE.

Definition main (w : World) (args : Args.t) : Run :=
  match determine_domains w args with
  | (Raise e, l0) =>
      {| printed := []; main_log := l0; futures := []; results := [];
         reports := []; mails := []; uncaught := Some e |}
  | (Ok None, l0) =>
      {| printed := ["Specify --inventory or a single domain"];
         main_log := l0; futures := []; results := []; reports := [];
         mails := []; uncaught := None |}
  | (Ok (Some domains), l0) =>
      let futs := submit_all w domains in
      let '(res, l1) := collect (as_completed (sched w) futs) in
      match reporting w args res with
      | (Raise e, l2) =>
          {| printed := []; main_log := l0 ++ l1 ++ l2; futures := futs;
             results := res; reports := []; mails := [];
             uncaught := Some e |}
      | (Ok reps, l2) =>
          let '(ms, l3) := alerting w args res in
          {| printed := [summary domains];
             main_log := l0 ++ l1 ++ l2 ++ l3; futures := futs;
             results := res; reports := reps; mails := ms;
             uncaught := None |}
      end
  end.

(** ** The whole of [main] *)

(** What [parser.parse_args()] makes of the command line: the namespace, or
    argparse leaving through [SystemExit] (status 2 on a usage error, 0
    after [--help]). *)
Inductive Parsed : Type :=
| Namespace (args : Args.t)
| SystemExit (status : Z).

(** What a call of [main] meets before line 162: the exception, if any, of
    [logging.basicConfig] opening [dns_suite.log] in [setup_logger], and the
    outcome of [parse_args]. *)
Record Startup : Type := {
  log_fault : option string;
  command_line : Parsed
}.

(** How a call ends. *)
Inductive Ending : Type :=
| Returns (r : Run)
| Raises (e : string)
| Exits (status : Z).

(** [main] from its first line: [setup_logger()], the parser and
    [parse_args()], then lines 162 to 208. *)
Definition main_call (w : World) (s : Startup) : Ending :=
  match log_fault s with
  | Some e => Raises e
  | None =>
      match command_line s with
      | SystemExit status => Exits status
      | Namespace args =>
          let r := main w args in
          match uncaught r with
          | Some e => Raises e
          | None => Returns r
          end
      end
  end.

(** ** The module text and the script *)

Definition DQ : string := String (ascii_of_nat 34) "".

(** Lines 200 to 206 of the file, character for character: the call of
    [send_email_notification], with the quote that opens at the end of line
    204 and the one that opens line 205. *)
Definition lines_200_206 : list string :=
  ["            send_email_notification(";
   "                args.smtp_server, args.smtp_port,";
   "                args.smtp_user, args.smtp_pass,";
   "                args.to_email,";
   "                " +:+ DQ +:+ "DNS Suite Alert" +:+ DQ +:+ ", '";
   "'.join(body)";
   "            )"].

(** Where the tokenizer stands in a line: in code, or inside a short string
    literal opened by [quote]. *)
Inductive Lex : Type :=
| InCode
| InString (quote : ascii).

(** One physical line, read from the state [st]: a quote opens a literal
    that the same quote closes, a backslash inside a literal protects the
    next character, and [#] in code starts a comment.  (Triple-quoted
    literals, of which these lines have none, are not told apart.) *)
Fixpoint lex_line (st : Lex) (line : string) : Lex :=
  match line with
  | "" => st
  | String c rest =>
      match st with
      | InCode =>
          if Nat.eqb (nat_of_ascii c) 39 || Nat.eqb (nat_of_ascii c) 34
          then lex_line (InString c) rest
          else if Nat.eqb (nat_of_ascii c) 35 then InCode
          else lex_line InCode rest
      | InString q =>
          if Nat.eqb (nat_of_ascii c) 92 then
            match rest with
            | String _ rest' => lex_line (InString q) rest'
            | "" => InCode
            end
          else if Ascii.eqb c q then lex_line InCode rest
          else lex_line (InString q) rest
      end
  end.

(** A short string literal may not run past the end of its line:
    [SyntaxError: unterminated string literal]. *)
Definition unterminated (line : string) : bool :=
  match lex_line InCode line with
  | InString _ => true
  | InCode => false
  end.

Definition syntax_error : bool := existsb unterminated lines_200_206.

(** What the process did: the calls of [main] that returned, and its exit
    status. *)
Record Process : Type := {
  runs : list Run;
  exit_status : Z
}.

(** The second call of [main] finds the root logger configured, so that
    [basicConfig] does nothing, and parses the same command line. *)
Definition second_call (s : Startup) : Startup :=
  {| log_fault := None; command_line := command_line s |}.

(** The [if __name__ == '__main__':] block, lines 210 to 212; [w1] and [w2]
    are the world at the first and at the second call.  An exception that
    reaches the top level gives status 1, [SystemExit] its own status, the
    end of the script 0. *)
Definition main_block (w1 w2 : World) (s : Startup) : Process :=
  match main_call w1 s with
  | Raises _ => {| runs := []; exit_status := 1 |}
  | Exits status => {| runs := []; exit_status := status |}
  | Returns r1 =>
      match main_call w2 (second_call s) with
      | Raises _ => {| runs := [r1]; exit_status := 1 |}
      | Exits status => {| runs := [r1]; exit_status := status |}
      | Returns r2 => {| runs := [r1; r2]; exit_status := 0 |}
      end
  end.

(** Running the file: the interpreter compiles the module before it runs
    any of it, and stops with status 1 on a syntax error. *)
Definition script (w1 w2 : World) (s : Startup) : Process :=
  if syntax_error then {| runs := []; exit_status := 1 |}
  else main_block w1 w2 s.

(** ** Vocabulary for the statements *)

(** The (domain, nameserver) pairs the alert pass probes, in the order of its
    two loops. *)
Definition probed_pairs (resolve : Resolver) (results : Results)
  : list (string * string) :=
  flat_map (λ item, map (pair item.1) (get_nameservers resolve item.1).1)
           (PyDict.items results).

(** The test [if z:] of the alert pass on the pair [p]. *)
Definition exposed (xfr : XfrClient) (p : string * string) : bool :=
  nonempty_list (check_zone_transfer xfr p.1 p.2).1.

Definition alert_line_of (p : string * string) : string :=
  alert_line p.1 p.2.

(** What the alert pass logs for one item of the results: per domain one NS lookup, then one probe for
    each nameserver it gave. *)
Definition alert_pass_log (resolve : Resolver) (xfr : XfrClient)
    (item : string * Records) : Log :=
  (get_nameservers resolve item.1).2
  ++ flat_map (λ nsrv, (check_zone_transfer xfr item.1 nsrv).2)
              (get_nameservers resolve item.1).1.

(** What a completed future makes the collecting loop do: publish its
    records under its domain, or log its exception. *)
Definition published (f : Future) : option (string * Records) :=
  match outcome f with
  | Returned recs => Some (dom f, recs)
  | Raised _ => None
  end.

Definition failure_logged (f : Future) : option (Level * LogMsg) :=
  match outcome f with
  | Returned _ => None
  | Raised e => Some (ERROR, ErrorAnalyzing (dom f) e)
  end.

(** The domains a run hands to the pool. *)
Definition scanned_domains (w : World) (args : Args.t) : list string :=
  match determine_domains w args with
  | (Ok (Some domains), _) => domains
  | _ => []
  end.

(** The command line [args] with [--zone-transfer] given or not. *)
Definition with_zone_transfer (zt : bool) (args : Args.t) : Args.t := {|
  Args.domain := Args.domain args;
  Args.inventory := Args.inventory args;
  Args.zone_transfer := zt;
  Args.history := Args.history args;
  Args.email_security := Args.email_security args;
  Args.report := Args.report args;
  Args.report_out := Args.report_out args;
  Args.alert_email := Args.alert_email args;
  Args.smtp_server := Args.smtp_server args;
  Args.smtp_port := Args.smtp_port args;
  Args.smtp_user := Args.smtp_user args;
  Args.smtp_pass := Args.smtp_pass args;
  Args.to_email := Args.to_email args
|}.

(** ** A sample world

    One zone, [example.com], with two nameservers of which the first lets
    anyone transfer the zone; used to run the definitions above. *)

Module Sample.

Definition resolver : Resolver := fun domain rtype =>
  if String.eqb rtype "A" then Ok [RD_A "93.184.216.34"]
  else if String.eqb rtype "NS" then
    Ok [RD_NS "ns1.example.com."; RD_NS "ns2.example.com."]
  else if String.eqb rtype "SOA" then
    Ok [RD_SOA "ns1.example.com." "admin.example.com." 2024 7200 3600 1209600 3600;
        RD_SOA "ns2.example.com." "root.example.com." 7 7200 3600 1209600 3600]
  else if String.eqb rtype "SRV" then Ok [RD_SRV 10 20 443 "sip.example.com."]
  else Raise "The DNS response does not contain an answer to the question".

Definition xfr : XfrClient := fun nameserver domain =>
  if String.eqb nameserver "ns1.example.com." then
    Ok ("a." +:+ LF +:+ "b.")
  else Raise "Zone transfer error: REFUSED".

(** A server that allows the transfer of a zone with nothing in it. *)
Definition open_empty : XfrClient := fun nameserver domain => Ok "".

(** The resolver as the [i]-th task sees it: the address moves with [i]. *)
Definition resolver_at (i : nat) : Resolver := fun domain rtype =>
  if String.eqb rtype "A" then Ok [RD_A ("192.0.2." +:+ pretty i)]
  else resolver domain rtype.

Definition inventory_file : string :=
  "x.com" +:+ LF +:+ "x.com" +:+ LF +:+ "y.com" +:+ LF.

(** A quiet run: no task raises, and of the pending futures the pool
    completes the second first. *)
Definition calm : World := {|
  fs := fun path =>
    if String.eqb path "domains.txt" then Readable inventory_file
    else Missing;
  task_resolver := resolver_at;
  task_fault := fun _ => None;
  sched := fun _ => 1;
  alert_resolver := resolver;
  xfr_client := xfr;
  optional_libs := true;
  report_fault := fun _ => None;
  smtp := fun _ => None
|}.

(** The same, with an exception leaving the second task. *)
Definition world : World := {|
  fs := fs calm;
  task_resolver := resolver_at;
  task_fault := fun i => if Nat.eqb i 1 then Some "boom" else None;
  sched := fun _ => 1;
  alert_resolver := resolver;
  xfr_client := xfr;
  optional_libs := true;
  report_fault := fun _ => None;
  smtp := fun _ => None
|}.

(** The quiet world a moment later, the address having moved on. *)
Definition later : World := {|
  fs := fs calm;
  task_resolver := fun i => resolver_at (i + 10);
  task_fault := fun _ => None;
  sched := fun _ => 1;
  alert_resolver := resolver;
  xfr_client := xfr;
  optional_libs := true;
  report_fault := fun _ => None;
  smtp := fun _ => None
|}.

(** The quiet world on a machine without [pandas] and [jinja2]. *)
Definition no_libs : World := {|
  fs := fs calm;
  task_resolver := resolver_at;
  task_fault := fun _ => None;
  sched := fun _ => 1;
  alert_resolver := resolver;
  xfr_client := xfr;
  optional_libs := false;
  report_fault := fun _ => None;
  smtp := fun _ => None
|}.

(** [prog d --zone-transfer] or [prog d], for [zt] true or false. *)
Definition single (d : string) (zt : bool) : Args.t := {|
  Args.domain := Some d;
  Args.inventory := None;
  Args.zone_transfer := zt;
  Args.history := false;
  Args.email_security := false;
  Args.report := None;
  Args.report_out := "report.html";
  Args.alert_email := false;
  Args.smtp_server := None;
  Args.smtp_port := 587;
  Args.smtp_user := None;
  Args.smtp_pass := None;
  Args.to_email := None
|}.

(** [prog --inventory path --alert-email --smtp-server mail.example.com
    --to-email soc@example.com] *)
Definition bulk (path : string) : Args.t := {|
  Args.domain := None;
  Args.inventory := Some path;
  Args.zone_transfer := false;
  Args.history := false;
  Args.email_security := false;
  Args.report := None;
  Args.report_out := "report.html";
  Args.alert_email := true;
  Args.smtp_server := Some "mail.example.com";
  Args.smtp_port := 587;
  Args.smtp_user := None;
  Args.smtp_pass := None;
  Args.to_email := Some "soc@example.com"
|}.

(** [prog], with no target at all. *)
Definition bare : Args.t := {|
  Args.domain := None;
  Args.inventory := None;
  Args.zone_transfer := false;
  Args.history := false;
  Args.email_security := false;
  Args.report := None;
  Args.report_out := "report.html";
  Args.alert_email := false;
  Args.smtp_server := None;
  Args.smtp_port := 587;
  Args.smtp_user := None;
  Args.smtp_pass := None;
  Args.to_email := None
|}.

(** The log file opens and the command line parses to [args]. *)
Definition started (args : Args.t) : Startup :=
  {| log_fault := None; command_line := Namespace args |}.

End Sample.

(** ** The rows of the spreadsheet report *)

(** [str(v)] of a list element. *)
Definition py_str (v : PyVal) : string :=
  match v with
  | PyStr s => s
  | PyInt n => str_int n
  end.

(** Iterating a [str] gives its characters, each a [str] of length one. *)
Fixpoint chars (s : string) : list string :=
  match s with
  | "" => []
  | String c rest => String c "" :: chars rest
  end.

(** [','.join(map(str, vals))], where [vals] is the list of a record type
    or, after a failed query, the error text itself. *)
Definition xlsx_value (vals : RecordValue) : string :=
  match vals with
  | Values l => String.concat "," (map py_str l)
  | ErrorText s => String.concat "," (chars s)
  end.

(** One row of the sheet: the cells Domain, Type and Value. *)
Record Row : Type := {
  row_domain : string;
  row_type : string;
  row_value : string
}.

(** The two loops of [generate_xlsx_report] that fill [rows], lines 116 to
    119. *)
Definition xlsx_rows (results : Results) : list Row :=
  flat_map
    (λ item : string * Records,
       map (λ rec : string * RecordValue,
              {| row_domain := item.1; row_type := rec.1;
                 row_value := xlsx_value rec.2 |})
           (PyDict.items item.2))
    (PyDict.items results).

(** ** More vocabulary *)

(** No character of [s] satisfies [p]. *)
Fixpoint free_of (p : ascii → bool) (s : string) : Prop :=
  match s with
  | "" => True
  | String c rest => p c = false ∧ free_of p rest
  end.

Definition CR : string := String (ascii_of_nat 13) "".

(** The text of a file with one line per domain, each ended by [eol]. *)
Definition file_of (eol : string) (domains : list string) : string :=
  foldr (λ d rest, d +:+ eol +:+ rest) "" domains.

(** The command line [args] with another positional domain, another
    [--report], or none. *)
Definition with_domain (d : option string) (args : Args.t) : Args.t := {|
  Args.domain := d;
  Args.inventory := Args.inventory args;
  Args.zone_transfer := Args.zone_transfer args;
  Args.history := Args.history args;
  Args.email_security := Args.email_security args;
  Args.report := Args.report args;
  Args.report_out := Args.report_out args;
  Args.alert_email := Args.alert_email args;
  Args.smtp_server := Args.smtp_server args;
  Args.smtp_port := Args.smtp_port args;
  Args.smtp_user := Args.smtp_user args;
  Args.smtp_pass := Args.smtp_pass args;
  Args.to_email := Args.to_email args
|}.

Definition with_report (r : option ReportFormat) (args : Args.t) : Args.t := {|
  Args.domain := Args.domain args;
  Args.inventory := Args.inventory args;
  Args.zone_transfer := Args.zone_transfer args;
  Args.history := Args.history args;
  Args.email_security := Args.email_security args;
  Args.report := r;
  Args.report_out := Args.report_out args;
  Args.alert_email := Args.alert_email args;
  Args.smtp_server := Args.smtp_server args;
  Args.smtp_port := Args.smtp_port args;
  Args.smtp_user := Args.smtp_user args;
  Args.smtp_pass := Args.smtp_pass args;
  Args.to_email := Args.to_email args
|}.

(** The world [w] with another pool scheduling, or another mail server. *)
Definition with_sched (s : nat → nat) (w : World) : World := {|
  fs := fs w;
  task_resolver := task_resolver w;
  task_fault := task_fault w;
  sched := s;
  alert_resolver := alert_resolver w;
  xfr_client := xfr_client w;
  optional_libs := optional_libs w;
  report_fault := report_fault w;
  smtp := smtp w
|}.

Definition with_smtp (m : Mail → option string) (w : World) : World := {|
  fs := fs w;
  task_resolver := task_resolver w;
  task_fault := task_fault w;
  sched := sched w;
  alert_resolver := alert_resolver w;
  xfr_client := xfr_client w;
  optional_libs := optional_libs w;
  report_fault := report_fault w;
  smtp := m
|}.

(** * Properties *)

(** ** Dictionaries *)

Section DictFacts.
Context {V : Type}.
Implicit Types (d : PyDict.t V) (k : string) (v : V).

Lemma get_set_eq d k v : PyDict.get k (PyDict.set k v d) = Some v.
Proof.
  induction d as [|[k' v'] d IH]; simpl.
  - by rewrite String.eqb_refl.
  - destruct (String.eqb_spec k k') as [->|Hne]; simpl.
    + by rewrite String.eqb_refl.
    + destruct (String.eqb_spec k k'); [done | exact IH].
Qed.

Lemma get_set_ne d k k' v :
  k ≠ k' → PyDict.get k' (PyDict.set k v d) = PyDict.get k' d.
Proof.
  intros Hne. induction d as [|[k0 v0] d IH]; simpl.
  - destruct (String.eqb_spec k' k); [congruence | done].
  - destruct (String.eqb_spec k k0) as [->|Hk]; simpl.
    + destruct (String.eqb_spec k' k0); [congruence | done].
    + destruct (String.eqb_spec k' k0); [done | exact IH].
Qed.

Lemma get_None d k : PyDict.get k d = None ↔ k ∉ PyDict.keys d.
Proof.
  induction d as [|[k' v'] d IH]; simpl.
  - split; [intros _; apply not_elem_of_nil | done].
  - rewrite not_elem_of_cons.
    destruct (String.eqb_spec k k') as [->|Hne].
    + split; [discriminate | by intros [? _]].
    + rewrite IH. tauto.
Qed.

Lemma get_Some_keys d k v : PyDict.get k d = Some v → k ∈ PyDict.keys d.
Proof.
  intros H. destruct (decide (k ∈ PyDict.keys d)) as [|Hn]; [done|].
  apply get_None in Hn. congruence.
Qed.

Lemma keys_set_in d k v :
  k ∈ PyDict.keys d → PyDict.keys (PyDict.set k v d) = PyDict.keys d.
Proof.
  induction d as [|[k' v'] d IH]; simpl.
  - intros H. by apply elem_of_nil in H.
  - intros H. destruct (String.eqb_spec k k') as [->|Hne]; simpl; [done|].
    f_equal. apply IH. by apply elem_of_cons in H as [?|?].
Qed.

Lemma keys_set_notin d k v :
  k ∉ PyDict.keys d → PyDict.keys (PyDict.set k v d) = PyDict.keys d ++ [k].
Proof.
  induction d as [|[k' v'] d IH]; simpl; [done|].
  rewrite not_elem_of_cons. intros [Hne Hn].
  destruct (String.eqb_spec k k'); [done|]. simpl. f_equal. by apply IH.
Qed.

Lemma elem_of_keys_set d k k' v :
  k' ∈ PyDict.keys (PyDict.set k v d) ↔ k' = k ∨ k' ∈ PyDict.keys d.
Proof.
  destruct (decide (k ∈ PyDict.keys d)) as [Hin|Hn].
  - rewrite keys_set_in by done. split; [tauto | by intros [->|?]].
  - rewrite keys_set_notin by done.
    rewrite elem_of_app, list_elem_of_singleton. tauto.
Qed.

Lemma NoDup_keys_set d k v :
  NoDup (PyDict.keys d) → NoDup (PyDict.keys (PyDict.set k v d)).
Proof.
  intros Hd. destruct (decide (k ∈ PyDict.keys d)) as [Hin|Hn].
  - by rewrite keys_set_in.
  - rewrite keys_set_notin by done. apply NoDup_app. split_and!; [done| |].
    + intros x Hx ->%list_elem_of_singleton. done.
    + apply NoDup_singleton.
Qed.
End DictFacts.

(** ** The record resolver *)

Lemma analyze_step_eq resolve domain (st : Records * Log) rtype :
  analyze_step resolve domain st rtype =
  (PyDict.set rtype (record_for resolve domain rtype).1 st.1,
   st.2 ++ [(record_for resolve domain rtype).2]).
Proof. unfold analyze_step. by destruct (record_for resolve domain rtype). Qed.

(** The loop stores, for each of the nine types in turn, what that type's own
    query gave. *)
Lemma analyze_dns_records_eq resolve domain :
  analyze_dns_records resolve domain =
  (map (λ rtype, (rtype, (record_for resolve domain rtype).1)) types,
   map (λ rtype, (record_for resolve domain rtype).2) types).
Proof.
  unfold analyze_dns_records, types. cbn [foldl].
  rewrite !analyze_step_eq. cbn [fst snd map].
  repeat match goal with
  | |- context [record_for resolve domain ?t] =>
      generalize (record_for resolve domain t); intros [??]
  end.
  reflexivity.
Qed.

Lemma record_for_error resolve domain rtype e :
  resolve domain rtype = Raise e →
  (record_for resolve domain rtype).1 = ErrorText ("Error: " +:+ e).
Proof. intros H. unfold record_for, query. by rewrite H. Qed.

Lemma record_for_local resolve resolve' domain rtype :
  resolve' domain rtype = resolve domain rtype →
  record_for resolve' domain rtype = record_for resolve domain rtype.
Proof. intros H. unfold record_for, query. by rewrite H. Qed.

Lemma analyze_dns_records_get resolve domain rtype :
  rtype ∈ types →
  PyDict.get rtype (analyze_dns_records resolve domain).1
  = Some (record_for resolve domain rtype).1.
Proof.
  rewrite analyze_dns_records_eq. unfold types. cbn [fst map].
  intros H. repeat (apply elem_of_cons in H as [->|H]; [reflexivity|]).
  by apply elem_of_nil in H.
Qed.

(** C2: whatever the nine queries do, [analyze_dns_records] returns a
    dictionary whose keys are exactly the nine record types, each holding the
    list of its own query or the error text of its own failure; a query that
    raises leaves ["Error: ..."] under its own type, and what is stored under
    a type depends on that type's query alone. *)
Theorem analyze_dns_records_nine_keys resolve domain :
  let recs := (analyze_dns_records resolve domain).1 in
  PyDict.keys recs = types ∧ length recs = 9 ∧ NoDup (PyDict.keys recs) ∧
  Forall (λ rtype,
    PyDict.get rtype recs =
    Some (match query resolve domain rtype with
          | Ok vals => Values vals
          | Raise e => ErrorText ("Error: " +:+ e)
          end)) types ∧
  Forall (λ rtype, ∀ e,
    resolve domain rtype = Raise e →
    PyDict.get rtype recs = Some (ErrorText ("Error: " +:+ e))) types ∧
  Forall (λ rtype, ∀ resolve',
    resolve' domain rtype = resolve domain rtype →
    PyDict.get rtype (analyze_dns_records resolve' domain).1
    = PyDict.get rtype recs) types.
Proof.
  intros recs. subst recs. split_and!.
  - by rewrite analyze_dns_records_eq.
  - by rewrite analyze_dns_records_eq.
  - rewrite analyze_dns_records_eq. compute_done.
  - apply Forall_forall. intros rtype Hin.
    rewrite analyze_dns_records_get by done. unfold record_for.
    by destruct (query resolve domain rtype).
  - apply Forall_forall. intros rtype Hin e He.
    rewrite analyze_dns_records_get by done. f_equal.
    by apply record_for_error.
  - apply Forall_forall. intros rtype Hin resolve' He.
    rewrite !analyze_dns_records_get by done. f_equal. f_equal.
    by apply record_for_local.
Qed.

Lemma analyze_dns_records_nine_keys_sample :
  PyDict.keys (analyze_dns_records Sample.resolver "example.com").1 = types.
Proof.
  apply (analyze_dns_records_nine_keys Sample.resolver "example.com").
Defined.

(** A zone that answers the A query only. *)
Example analyze_dns_records_a_only :
  let resolve : Resolver := fun domain rtype =>
    if String.eqb rtype "A" then Ok [RD_A "93.184.216.34"]
    else Raise "NXDOMAIN" in
  let recs := (analyze_dns_records resolve "example.com").1 in
  PyDict.get "A" recs = Some (Values [PyStr "93.184.216.34"]) ∧
  PyDict.get "MX" recs = Some (ErrorText "Error: NXDOMAIN") ∧
  PyDict.keys recs = types.
Proof. by vm_compute. Qed.

(** C7, as the code has it: when the SOA query answers, the value stored
    under ["SOA"] is the three-element list made from the first answer alone,
    [str(mname)], [str(rname)] and the serial, the serial being the integer
    itself and not its text; further SOA answers are ignored. *)
Theorem soa_from_first_answer resolve domain m r s rf rt ex mi rest :
  resolve domain "SOA" = Ok (RD_SOA m r s rf rt ex mi :: rest) →
  PyDict.get "SOA" (analyze_dns_records resolve domain).1
  = Some (Values [PyStr m; PyStr r; PyInt s]).
Proof.
  intros H. rewrite analyze_dns_records_get by compute_done.
  unfold record_for, query. by rewrite H.
Qed.

Lemma soa_from_first_answer_sample :
  PyDict.get "SOA" (analyze_dns_records Sample.resolver "example.com").1
  = Some (Values [PyStr "ns1.example.com."; PyStr "admin.example.com.";
                  PyInt 2024]).
Proof.
  apply (soa_from_first_answer Sample.resolver "example.com" _ _ _
           7200 3600 1209600 3600
           [RD_SOA "ns2.example.com." "root.example.com." 7 7200 3600 1209600 3600]).
  reflexivity.
Defined.

(** C7, as stated, fails: the SOA query of the sample zone succeeds, and the
    value stored is not a sequence of three strings, its last element being
    an integer. *)
Lemma soa_value_not_all_strings :
  (∃ answers, Sample.resolver "example.com" "SOA" = Ok answers) ∧
  ¬ ∃ s1 s2 s3,
      PyDict.get "SOA" (analyze_dns_records Sample.resolver "example.com").1
      = Some (Values [PyStr s1; PyStr s2; PyStr s3]).
Proof.
  split; [by eexists|]. intros (s1 & s2 & s3 & H). vm_compute in H. congruence.
Qed.

(** ** The zone-transfer prober *)

Lemma snoc_nonempty cur c : snoc cur c ≠ "".
Proof. unfold snoc. by destruct cur. Qed.

Lemma splitlines_from_nil s : ∀ cur, splitlines_from cur s = [] → cur = "" ∧ s = "".
Proof.
  induction s as [|c rest IH]; intros cur; simpl.
  - destruct (String.eqb_spec cur ""); [done | discriminate].
  - destruct (is_linebreak c).
    + destruct rest as [|c' rest']; [discriminate|].
      by destruct (_ && _).
    + intros [H _]%IH. by apply snoc_nonempty in H.
Qed.

Lemma splitlines_nil s : splitlines s = [] ↔ s = "".
Proof.
  split; [|by intros ->].
  intros H. by apply splitlines_from_nil in H as [_ ?].
Qed.

Lemma nonempty_list_false {A} (l : list A) : nonempty_list l = false ↔ l = [].
Proof. by destruct l. Qed.

Lemma nonempty_list_true {A} (l : list A) : nonempty_list l = true ↔ l ≠ [].
Proof. by destruct l. Qed.

(** What [check_zone_transfer] returns and logs in each of its two
    branches, and when the list it returns is not empty. *)
Lemma check_zone_transfer_branches xfr domain nameserver :
  let out := check_zone_transfer xfr domain nameserver in
  (∀ text, xfr nameserver domain = Ok text →
     out = (splitlines text, [(WARNING, ZoneTransferAllowed nameserver domain)])) ∧
  (∀ e, xfr nameserver domain = Raise e →
     out = ([], [(INFO, ZoneTransferDenied nameserver domain)])) ∧
  (nonempty_list out.1 = true ↔
     ∃ text, xfr nameserver domain = Ok text ∧ text ≠ "").
Proof.
  intros out. subst out. unfold check_zone_transfer.
  destruct (xfr nameserver domain) as [text|e]; cbn [fst]; split_and!.
  - by intros ? [= ->].
  - done.
  - rewrite nonempty_list_true, splitlines_nil. split; [eauto|].
    by intros (? & [= ->] & ?).
  - done.
  - by intros ? [= ->].
  - split; [done|]. by intros (? & ? & ?).
Qed.

(** C3: [dns.zone.from_xfr] raises on a transfer that brings no record, so
    that the text of a zone it returns is never empty.  With such a transfer
    client [check_zone_transfer], which returns a list and never raises,
    returns a non-empty list, the lines of the zone's text, exactly when the
    server permits the transfer, and the empty list on any failure. *)
Theorem check_zone_transfer_exposed_iff_permitted xfr domain nameserver :
  (∀ text, xfr nameserver domain = Ok text → text ≠ "") →
  let out := check_zone_transfer xfr domain nameserver in
  (∀ text, xfr nameserver domain = Ok text →
     out = (splitlines text,
            [(WARNING, ZoneTransferAllowed nameserver domain)]) ∧
     nonempty_list out.1 = true) ∧
  (∀ e, xfr nameserver domain = Raise e →
     out = ([], [(INFO, ZoneTransferDenied nameserver domain)]) ∧
     nonempty_list out.1 = false) ∧
  (nonempty_list out.1 = true ↔ ∃ text, xfr nameserver domain = Ok text) ∧
  (out.1 = [] ↔ ∃ e, xfr nameserver domain = Raise e).
Proof.
  intros Htext out. subst out. unfold check_zone_transfer.
  destruct (xfr nameserver domain) as [text|e]; cbn [fst].
  - assert (nonempty_list (splitlines text) = true) as Hne.
    { apply nonempty_list_true. rewrite splitlines_nil. by apply Htext. }
    split_and!.
    + by intros ? [= ->].
    + done.
    + split; eauto.
    + split; [|by intros [? ?]]. intros Hnil. by rewrite Hnil in Hne.
  - split_and!.
    + done.
    + by intros ? [= ->].
    + split; [done | by intros [? ?]].
    + split; eauto.
Qed.

Lemma check_zone_transfer_exposed_iff_permitted_sample :
  (∀ text, Sample.xfr "ns1.example.com." "example.com" = Ok text →
           text ≠ "") ∧
  check_zone_transfer Sample.xfr "example.com" "ns1.example.com."
  = (["a."; "b."],
     [(WARNING, ZoneTransferAllowed "ns1.example.com." "example.com")]).
Proof.
  assert (∀ text, Sample.xfr "ns1.example.com." "example.com" = Ok text →
                  text ≠ "") as Htext.
  { intros text H. injection H as <-. discriminate. }
  split; [exact Htext|].
  exact (proj1 (proj1 (check_zone_transfer_exposed_iff_permitted Sample.xfr
                         "example.com" "ns1.example.com." Htext)
                  ("a." +:+ LF +:+ "b.") eq_refl)).
Defined.

(** C10: when the server permits the transfer and the zone's text has no
    line, [check_zone_transfer] returns the empty list it returns for a
    denied transfer, the pair does not pass the alert's test and its probe
    adds no line to the alert. *)
Theorem empty_zone_same_as_denied xfr domain nameserver text :
  xfr nameserver domain = Ok text →
  splitlines text = [] →
  (check_zone_transfer xfr domain nameserver).1 = [] ∧
  (∀ xfr' e, xfr' nameserver domain = Raise e →
     (check_zone_transfer xfr' domain nameserver).1
     = (check_zone_transfer xfr domain nameserver).1) ∧
  exposed xfr (domain, nameserver) = false ∧
  (∀ st, (probe_step xfr domain st nameserver).1 = st.1).
Proof.
  intros Hx Hl.
  assert ((check_zone_transfer xfr domain nameserver).1 = []) as Hz.
  { unfold check_zone_transfer. by rewrite Hx. }
  split_and!.
  - done.
  - intros xfr' e He. rewrite Hz. unfold check_zone_transfer. by rewrite He.
  - unfold exposed. cbn [fst snd]. by rewrite Hz.
  - intros st. unfold probe_step.
    destruct (check_zone_transfer xfr domain nameserver) as [z l].
    cbn [fst] in *. by subst z.
Qed.

Lemma empty_zone_same_as_denied_sample :
  (check_zone_transfer Sample.open_empty "example.com" "ns1.example.com.").1
  = [].
Proof.
  apply (proj1 (empty_zone_same_as_denied Sample.open_empty "example.com"
                  "ns1.example.com." "" eq_refl eq_refl)).
Defined.

(** ** The alert *)

Lemma filter_pairs_of_domain (P : string * string → Prop)
    `{∀ p, Decision (P p)} (d : string) (ns : list string) :
  filter P (map (pair d) ns) = map (pair d) (filter (λ n, P (d, n)) ns).
Proof.
  induction ns as [|n ns IH]; [done|]. cbn [map].
  rewrite !filter_cons, IH. by destruct (decide (P (d, n))).
Qed.

Lemma filter_flat_map {A B} (P : B → Prop) `{∀ b, Decision (P b)}
    (f : A → list B) (l : list A) :
  filter P (flat_map f l) = flat_map (λ a, filter P (f a)) l.
Proof.
  induction l as [|a l IH]; [done|]. cbn [flat_map].
  by rewrite filter_app, IH.
Qed.

(** The inner loop appends the lines of the exposed nameservers, in order. *)
Lemma probe_loop_lines xfr dom ns : ∀ st,
  (foldl (probe_step xfr dom) st ns).1
  = st.1 ++ map (alert_line dom)
                (filter (λ n, exposed xfr (dom, n) = true) ns).
Proof.
  induction ns as [|n ns IH]; intros st; cbn [foldl].
  - by rewrite app_nil_r.
  - rewrite IH, filter_cons. unfold probe_step, exposed. cbn [fst snd].
    destruct (check_zone_transfer xfr dom n) as [z l]. cbn [fst snd].
    destruct (nonempty_list z); cbn [fst].
    + rewrite decide_True by done. cbn [map]. by rewrite <- app_assoc.
    + by rewrite decide_False by done.
Qed.

Lemma alert_step_lines resolve xfr st item :
  (alert_step resolve xfr st item).1
  = st.1 ++ map alert_line_of
      (filter (λ p, exposed xfr p = true)
              (map (pair item.1) (get_nameservers resolve item.1).1)).
Proof.
  unfold alert_step. destruct (get_nameservers resolve item.1) as [ns l].
  rewrite probe_loop_lines. cbn [fst]. f_equal.
  rewrite filter_pairs_of_domain, map_map. done.
Qed.

Lemma alert_loop_lines resolve xfr (items : list (string * Records)) : ∀ st,
  (foldl (alert_step resolve xfr) st items).1
  = st.1 ++ map alert_line_of
      (filter (λ p, exposed xfr p = true)
         (flat_map (λ item, map (pair item.1)
                                (get_nameservers resolve item.1).1) items)).
Proof.
  induction items as [|item items IH]; intros st; cbn [foldl flat_map].
  - by rewrite app_nil_r.
  - rewrite IH, alert_step_lines, filter_app, map_app. by rewrite <- app_assoc.
Qed.

Lemma alert_body_lines resolve xfr res :
  (alert_body resolve xfr res).1
  = map alert_line_of
      (filter (λ p, exposed xfr p = true) (probed_pairs resolve res)).
Proof. unfold alert_body, probed_pairs. by rewrite alert_loop_lines. Qed.

Lemma decide_alert_eq resolve xfr res :
  (decide_alert resolve xfr res).1
  = if nonempty_list (alert_body resolve xfr res).1
    then Some (String.concat LF (alert_body resolve xfr res).1)
    else None.
Proof. unfold decide_alert. by destruct (alert_body resolve xfr res). Qed.

(** C5: the lines of the alert are the lines
    ["[ALERT] <domain> allows zone transfer on <nameserver>"] of the probed
    pairs whose transfer was found open, one line for each; with no such pair
    the decision is no alert, and otherwise it is one message text, the lines
    joined by newlines, which is the body of the one mail sent when alerting
    is switched on. *)
Theorem alert_decision w args res :
  let found := filter (λ p, exposed (xfr_client w) p = true)
                      (probed_pairs (alert_resolver w) res) in
  let lines := map (λ p, "[ALERT] " +:+ p.1 +:+ " allows zone transfer on "
                            +:+ p.2) found in
  (alert_body (alert_resolver w) (xfr_client w) res).1 = lines ∧
  length lines = length found ∧
  (found = [] →
     (decide_alert (alert_resolver w) (xfr_client w) res).1 = None) ∧
  (found ≠ [] →
     (decide_alert (alert_resolver w) (xfr_client w) res).1
     = Some (String.concat LF lines)) ∧
  (Args.alert_email args = true → truthy (Args.smtp_server args) = true →
     map mail_body (alerting w args res).1
     = if nonempty_list found then [String.concat LF lines] else []).
Proof.
  intros found lines.
  assert ((alert_body (alert_resolver w) (xfr_client w) res).1 = lines) as Hb.
  { by rewrite alert_body_lines. }
  assert (nonempty_list lines = nonempty_list found) as Hne.
  { subst lines. by destruct found. }
  split_and!.
  - done.
  - subst lines. by rewrite length_map.
  - intros Hf. rewrite decide_alert_eq, Hb, Hne, Hf. done.
  - intros Hf. rewrite decide_alert_eq, Hb, Hne.
    by apply nonempty_list_true in Hf as ->.
  - intros Ha Hs. unfold alerting. rewrite Ha, Hs. cbn [andb].
    pose proof (decide_alert_eq (alert_resolver w) (xfr_client w) res) as Hd.
    destruct (decide_alert (alert_resolver w) (xfr_client w) res) as [alert l].
    cbn [fst] in Hd. rewrite Hb, Hne in Hd. subst alert.
    by destruct (nonempty_list found).
Qed.

Lemma alert_decision_sample :
  map mail_body
    (alerting Sample.world (Sample.bulk "domains.txt")
       [("y.com", []); ("x.com", [])]).1
  = ["[ALERT] y.com allows zone transfer on ns1.example.com." +:+ LF
     +:+ "[ALERT] x.com allows zone transfer on ns1.example.com."].
Proof.
  apply (proj2 (proj2 (proj2 (proj2
    (alert_decision Sample.world (Sample.bulk "domains.txt")
       [("y.com", []); ("x.com", [])])))));
    reflexivity.
Defined.

(** ** The thread pool *)

Lemma complete_Permutation {A} sched fuel : ∀ k (pending : list A),
  length pending = fuel → complete sched k fuel pending ≡ₚ pending.
Proof.
  induction fuel as [|fuel IH]; intros k pending Hlen; cbn [complete].
  - by apply nil_length_inv in Hlen as ->.
  - destruct (lookup_lt_is_Some_2 pending (sched k mod length pending))
      as [f Hf].
    { apply Nat.mod_upper_bound. lia. }
    rewrite Hf. etrans; [|symmetry; exact (delete_Permutation _ _ _ Hf)].
    constructor. apply IH. rewrite length_delete by eauto. lia.
Qed.

Lemma as_completed_Permutation {A} sched (futs : list A) :
  as_completed sched futs ≡ₚ futs.
Proof. by apply complete_Permutation. Qed.

Lemma run_task_dom w i d : dom (run_task w i d) = d.
Proof.
  unfold run_task. destruct (analyze_dns_records _ _).
  by destruct (task_fault w i).
Qed.

Lemma run_task_task w i d : task (run_task w i d) = i.
Proof.
  unfold run_task. destruct (analyze_dns_records _ _).
  by destruct (task_fault w i).
Qed.

Lemma run_task_outcome w i d :
  outcome (run_task w i d)
  = match task_fault w i with
    | Some e => Raised e
    | None => Returned (analyze_dns_records (task_resolver w i) d).1
    end.
Proof.
  unfold run_task. destruct (analyze_dns_records _ _).
  by destruct (task_fault w i).
Qed.

Lemma submit_all_dom w domains : map dom (submit_all w domains) = domains.
Proof.
  unfold submit_all. change (map dom) with (fmap (M:=list) dom).
  rewrite fmap_imap, (imap_ext _ (const id)), imap_const, list_fmap_id; [done|].
  intros i d _. apply run_task_dom.
Qed.

Lemma elem_of_submit_all w domains f :
  f ∈ submit_all w domains ↔
  ∃ i d, domains !! i = Some d ∧ f = run_task w i d.
Proof.
  unfold submit_all. rewrite elem_of_lookup_imap.
  split; intros (i & d & ? & ?); by exists i, d.
Qed.

(** ** The collecting loop *)

Lemma collect_snoc fs f : collect (fs ++ [f]) = collect_step (collect fs) f.
Proof. unfold collect. by rewrite foldl_app. Qed.

Lemma collect_loop_log fs : ∀ st,
  (foldl collect_step st fs).2 = st.2 ++ omap failure_logged fs.
Proof.
  induction fs as [|f fs IH]; intros st; cbn [foldl omap list_omap].
  - by rewrite app_nil_r.
  - rewrite IH. unfold collect_step, failure_logged.
    destruct (outcome f); cbn [snd]; [done|]. by rewrite <- app_assoc.
Qed.

Lemma collect_loop_writes fs : ∀ st,
  (foldl collect_step st fs).1
  = foldl (λ r p, PyDict.set p.1 p.2 r) st.1 (omap published fs).
Proof.
  induction fs as [|f fs IH]; intros st; cbn [foldl omap list_omap]; [done|].
  rewrite IH. unfold collect_step, published. by destruct (outcome f).
Qed.

Lemma collect_loop_NoDup fs : ∀ st,
  NoDup (PyDict.keys st.1) →
  NoDup (PyDict.keys (foldl collect_step st fs).1).
Proof.
  induction fs as [|f fs IH]; intros st Hst; cbn [foldl]; [done|].
  apply IH. unfold collect_step. destruct (outcome f); cbn [fst]; [|done].
  by apply NoDup_keys_set.
Qed.

Lemma collect_loop_keys fs : ∀ st d,
  d ∈ PyDict.keys (foldl collect_step st fs).1 ↔
  d ∈ PyDict.keys st.1 ∨
  ∃ f recs, f ∈ fs ∧ dom f = d ∧ outcome f = Returned recs.
Proof.
  induction fs as [|f fs IH]; intros st d; cbn [foldl].
  - split; [by left|]. intros [?|(f & recs & Hin & _)]; [done|].
    by apply elem_of_nil in Hin.
  - rewrite IH. unfold collect_step at 1.
    destruct (outcome f) as [recs|e] eqn:Hf; cbn [fst].
    + rewrite elem_of_keys_set. split.
      * intros [[->|?]|(g & r & Hin & ? & ?)]; [right|by left|right].
        -- exists f, recs. by rewrite elem_of_cons; eauto.
        -- exists g, r. by rewrite elem_of_cons; eauto.
      * intros [?|(g & r & Hin & Hd & Ho)]; [by left; right|].
        apply elem_of_cons in Hin as [->|Hin]; [by left; left|].
        right. eauto.
    + split.
      * intros [?|(g & r & Hin & ? & ?)]; [by left|right].
        exists g, r. by rewrite elem_of_cons; eauto.
      * intros [?|(g & r & Hin & Hd & Ho)]; [by left|].
        apply elem_of_cons in Hin as [->|Hin]; [congruence|]. right. eauto.
Qed.

Lemma collect_step_returned st f recs :
  outcome f = Returned recs →
  collect_step st f = (PyDict.set (dom f) recs st.1, st.2)
  ∧ published f = Some (dom f, recs) ∧ failure_logged f = None.
Proof. intros H. unfold collect_step, published, failure_logged. by rewrite H. Qed.

Lemma collect_step_raised st f e :
  outcome f = Raised e →
  collect_step st f = (st.1, st.2 ++ [(ERROR, ErrorAnalyzing (dom f) e)])
  ∧ published f = None
  ∧ failure_logged f = Some (ERROR, ErrorAnalyzing (dom f) e).
Proof. intros H. unfold collect_step, published, failure_logged. by rewrite H. Qed.

(** With distinct domains every returned future opens a key of its own. *)
Lemma collect_loop_keys_distinct fs : ∀ st,
  NoDup (PyDict.keys st.1 ++ map dom fs) →
  PyDict.keys (foldl collect_step st fs).1
  = PyDict.keys st.1 ++ map fst (omap published fs).
Proof.
  induction fs as [|f fs IH]; intros st Hst; cbn [foldl omap list_omap map].
  - by rewrite app_nil_r.
  - cbn [map] in Hst.
    assert (dom f ∉ PyDict.keys st.1) as Hn.
    { apply NoDup_app in Hst as (_ & Hst & _). intros Hin.
      apply (Hst _ Hin). by left. }
    destruct (outcome f) as [recs|e] eqn:Hf.
    + destruct (collect_step_returned st f recs Hf) as (-> & -> & _).
      rewrite IH; cbn [fst map].
      * rewrite keys_set_notin by done. by rewrite <- app_assoc.
      * rewrite keys_set_notin by done. by rewrite <- app_assoc.
    + destruct (collect_step_raised st f e Hf) as (-> & -> & _).
      rewrite IH; cbn [fst]; [done|].
      apply NoDup_app in Hst as (H1 & H2 & H3). apply NoDup_app.
      split_and!; [done| |by apply NoDup_cons in H3 as [_ ?]].
      intros x Hx Hin. apply (H2 x Hx). by right.
Qed.

Lemma collect_loop_get_other fs d : ∀ st,
  (∀ g, g ∈ fs → dom g = d → ∃ e, outcome g = Raised e) →
  PyDict.get d (foldl collect_step st fs).1 = PyDict.get d st.1.
Proof.
  induction fs as [|f fs IH]; intros st Hfs; cbn [foldl]; [done|].
  rewrite IH by (intros g Hg; apply Hfs; by right).
  unfold collect_step. destruct (outcome f) as [recs|e] eqn:Hf; [|done].
  cbn [fst]. apply get_set_ne. intros Hd.
  destruct (Hfs f) as [e He]; [by left|done|congruence].
Qed.

(** The value under a key is the whole result of the last future of that
    domain to return. *)
Lemma collect_get_last before f after recs :
  outcome f = Returned recs →
  (∀ g, g ∈ after → dom g = dom f → ∃ e, outcome g = Raised e) →
  PyDict.get (dom f) (collect (before ++ f :: after)).1 = Some recs.
Proof.
  intros Hf Hafter. unfold collect. rewrite foldl_app. cbn [foldl].
  rewrite collect_loop_get_other by done.
  unfold collect_step. rewrite Hf. cbn [fst]. apply get_set_eq.
Qed.

Lemma collect_get_inv fs d recs :
  PyDict.get d (collect fs).1 = Some recs →
  ∃ before f after,
    fs = before ++ f :: after ∧ dom f = d ∧ outcome f = Returned recs ∧
    ∀ g, g ∈ after → dom g = d → ∃ e, outcome g = Raised e.
Proof.
  induction fs as [|g fs IH] using rev_ind; [done|].
  rewrite collect_snoc. unfold collect_step.
  destruct (outcome g) as [r|e] eqn:Hg; cbn [fst].
  - destruct (decide (dom g = d)) as [<-|Hne].
    + rewrite get_set_eq. intros [= ->]. exists fs, g, [].
      split_and!; [done..|]. intros ? Hin. by apply elem_of_nil in Hin.
    + rewrite get_set_ne by done.
      intros (before & f & after & -> & Hd & Hf & Hafter)%IH.
      exists before, f, (after ++ [g]). rewrite <- app_assoc.
      split_and!; [done..|]. intros h [Hh| ->%list_elem_of_singleton]%elem_of_app;
        [by apply Hafter | done].
  - intros (before & f & after & -> & Hd & Hf & Hafter)%IH.
    exists before, f, (after ++ [g]). rewrite <- app_assoc.
    split_and!; [done..|]. intros h [Hh| ->%list_elem_of_singleton]%elem_of_app;
      [by apply Hafter | eauto].
Qed.

Lemma published_failed_length fs :
  length (omap published fs) + length (omap failure_logged fs) = length fs.
Proof.
  induction fs as [|f fs IH]; [done|]. cbn [omap list_omap].
  unfold published at 1, failure_logged at 1.
  destruct (outcome f); cbn [length]; lia.
Qed.

(** ** The orchestrator *)

Lemma scan_all_eq w domains :
  scan_all w domains
  = collect (as_completed (sched w) (submit_all w domains)).
Proof. done. Qed.

Lemma completed_submitted w domains f :
  f ∈ as_completed (sched w) (submit_all w domains) ↔
  ∃ i d, domains !! i = Some d ∧ f = run_task w i d.
Proof.
  by rewrite (as_completed_Permutation (sched w)), elem_of_submit_all.
Qed.

Lemma completed_dom_Permutation w domains :
  map dom (as_completed (sched w) (submit_all w domains)) ≡ₚ domains.
Proof.
  rewrite <- (submit_all_dom w domains) at 2.
  apply Permutation_map, as_completed_Permutation.
Qed.

(** C4: of [N] distinct domains of which [K] have a task that raises, the
    collecting loop catches each exception and logs it once, leaves the [K]
    domains out of the results, which have [N - K] entries, and stores for
    every other domain the records its task returned. *)
Theorem scan_all_omits_failed w domains :
  NoDup domains →
  let failures := omap failure_logged (submit_all w domains) in
  let res := scan_all w domains in
  length res.1 = length domains - length failures ∧
  res.2 ≡ₚ failures ∧
  (∀ i d, domains !! i = Some d → task_fault w i = None →
     PyDict.get d res.1
     = Some (analyze_dns_records (task_resolver w i) d).1) ∧
  (∀ i d e, domains !! i = Some d → task_fault w i = Some e →
     PyDict.get d res.1 = None ∧ (ERROR, ErrorAnalyzing d e) ∈ res.2).
Proof.
  intros Hnd failures res. subst failures res. rewrite scan_all_eq.
  set (completed := as_completed (sched w) (submit_all w domains)).
  assert (completed ≡ₚ submit_all w domains) as Hperm
    by apply as_completed_Permutation.
  assert (NoDup (map dom completed)) as Hdoms.
  { subst completed. by rewrite completed_dom_Permutation. }
  assert ((collect completed).2 = omap failure_logged completed) as Hlog.
  { unfold collect. by rewrite collect_loop_log. }
  split_and!.
  - assert (PyDict.keys (collect completed).1
            = map fst (omap published completed)) as Hk.
    { unfold collect. by rewrite collect_loop_keys_distinct. }
    apply (f_equal length) in Hk. unfold PyDict.keys in Hk.
    rewrite !length_map in Hk. rewrite Hk.
    pose proof (published_failed_length completed) as Hl.
    assert (length completed = length domains) as Hn.
    { rewrite Hperm. apply length_imap. }
    assert (length (omap failure_logged completed)
            = length (omap failure_logged (submit_all w domains))) as Hf
      by (by rewrite Hperm).
    lia.
  - by rewrite Hlog, Hperm.
  - intros i d Hi Hfault.
    assert (run_task w i d ∈ completed) as Hin
      by (apply completed_submitted; eauto).
    apply list_elem_of_split in Hin as (before & after & Hsplit).
    rewrite Hsplit, <- (run_task_dom w i d) at 1.
    apply collect_get_last.
    + by rewrite run_task_outcome, Hfault.
    + intros g Hg Hdg. exfalso. rewrite Hsplit, map_app in Hdoms.
      apply NoDup_app in Hdoms as (_ & _ & Hdoms). cbn [map] in Hdoms.
      apply NoDup_cons in Hdoms as [Hdoms _]. apply Hdoms. rewrite <- Hdg.
      apply list_elem_of_fmap. eauto.
  - intros i d e Hi Hfault. split.
    + apply get_None. unfold collect. rewrite collect_loop_keys.
      intros [Hin|(g & recs & Hg & Hd & Ho)]; [by apply elem_of_nil in Hin|].
      apply completed_submitted in Hg as (j & d' & Hj & ->).
      rewrite run_task_dom in Hd. subst d'.
      assert (j = i) as -> by exact (NoDup_lookup _ _ _ _ Hnd Hj Hi).
      rewrite run_task_outcome, Hfault in Ho. done.
    + rewrite Hlog, Hperm. apply list_elem_of_omap.
      exists (run_task w i d). split; [apply elem_of_submit_all; eauto|].
      unfold failure_logged. by rewrite run_task_outcome, Hfault, run_task_dom.
Qed.

(** C8: however the domain list repeats itself, the results have one key for
    each distinct domain with a task that returned; the loop publishes the
    result of each returned task once, whole, in completion order, and the
    value left under a key is the records of one single task of that
    domain, the last of them to complete. *)
Theorem scan_all_last_writer_wins w domains :
  let completed := as_completed (sched w) (submit_all w domains) in
  let res := (scan_all w domains).1 in
  completed ≡ₚ submit_all w domains ∧
  NoDup (PyDict.keys res) ∧
  (∀ d, d ∈ PyDict.keys res ↔
        ∃ i, domains !! i = Some d ∧ task_fault w i = None) ∧
  res = foldl (λ r p, PyDict.set p.1 p.2 r) [] (omap published completed) ∧
  (∀ d recs, PyDict.get d res = Some recs →
     ∃ before f after,
       completed = before ++ f :: after ∧
       domains !! task f = Some d ∧
       task_fault w (task f) = None ∧
       recs = (analyze_dns_records (task_resolver w (task f)) d).1 ∧
       ∀ g, g ∈ after → dom g = d → ∃ e, outcome g = Raised e).
Proof.
  intros completed res. subst res. rewrite scan_all_eq. fold completed.
  split_and!.
  - apply as_completed_Permutation.
  - unfold collect. apply collect_loop_NoDup. constructor.
  - intros d. unfold collect. rewrite collect_loop_keys. split.
    + intros [Hin|(g & recs & Hg & Hd & Ho)]; [by apply elem_of_nil in Hin|].
      apply completed_submitted in Hg as (i & d' & Hi & ->).
      rewrite run_task_dom in Hd. subst d'. exists i. split; [done|].
      rewrite run_task_outcome in Ho. by destruct (task_fault w i).
    + intros (i & Hi & Hfault). right.
      exists (run_task w i d), (analyze_dns_records (task_resolver w i) d).1.
      split_and!.
      * apply completed_submitted. eauto.
      * apply run_task_dom.
      * by rewrite run_task_outcome, Hfault.
  - unfold collect. by rewrite collect_loop_writes.
  - intros d recs (before & f & after & Hsplit & Hd & Hf & Hafter)%collect_get_inv.
    exists before, f, after. split; [done|].
    assert (f ∈ completed) as Hin.
    { rewrite Hsplit. apply elem_of_app. right. by left. }
    apply completed_submitted in Hin as (i & d' & Hi & ->).
    rewrite run_task_dom in Hd. subst d'.
    rewrite run_task_outcome in Hf. rewrite run_task_task.
    destruct (task_fault w i); [done|]. split_and!; [done..| |done].
    congruence.
Qed.

Lemma scan_all_omits_failed_sample :
  NoDup ["a.com"; "b.com"; "c.com"] ∧
  length (scan_all Sample.world ["a.com"; "b.com"; "c.com"]).1 = 2.
Proof.
  assert (NoDup ["a.com"; "b.com"; "c.com"]) as Hnd by compute_done.
  split; [exact Hnd|].
  exact (proj1 (scan_all_omits_failed Sample.world
                  ["a.com"; "b.com"; "c.com"] Hnd)).
Defined.

Lemma scan_all_last_writer_wins_sample :
  NoDup (PyDict.keys (scan_all Sample.calm ["x.com"; "x.com"]).1).
Proof.
  exact (proj1 (proj2 (scan_all_last_writer_wins Sample.calm
                         ["x.com"; "x.com"]))).
Defined.

(** The duplicate list of the specification: one key, holding the records of
    the task that completed last (here the first one submitted). *)
Example scan_all_duplicates :
  let res := (scan_all Sample.calm ["x.com"; "x.com"]).1 in
  PyDict.keys res = ["x.com"] ∧
  map task (as_completed (sched Sample.calm)
              (submit_all Sample.calm ["x.com"; "x.com"])) = [1; 0] ∧
  PyDict.get "x.com" res
  = Some (analyze_dns_records (Sample.resolver_at 0) "x.com").1.
Proof. by vm_compute. Qed.

(** ** [main] and the script *)

Lemma main_ignores_zone_transfer w args zt :
  main w (with_zone_transfer zt args) = main w args.
Proof. done. Qed.

Lemma main_scan w args :
  results (main w args) = (scan_all w (scanned_domains w args)).1 ∧
  futures (main w args) = submit_all w (scanned_domains w args).
Proof.
  unfold main, scanned_domains, scan_all.
  destruct (determine_domains w args) as [[[domains|]|e] l0]; [|done..].
  destruct (collect _) as [res l1].
  destruct (reporting w args res) as [[reps|e] l2]; [|done].
  by destruct (alerting w args res).
Qed.

Lemma probe_loop_log xfr dom ns : ∀ st,
  (foldl (probe_step xfr dom) st ns).2
  = st.2 ++ flat_map (λ nsrv, (check_zone_transfer xfr dom nsrv).2) ns.
Proof.
  induction ns as [|n ns IH]; intros st; cbn [foldl flat_map].
  - by rewrite app_nil_r.
  - rewrite IH. unfold probe_step.
    destruct (check_zone_transfer xfr dom n) as [z l]. cbn [snd].
    by rewrite <- app_assoc.
Qed.

Lemma alert_loop_log resolve xfr (items : list (string * Records)) : ∀ st,
  (foldl (alert_step resolve xfr) st items).2
  = st.2 ++ flat_map (alert_pass_log resolve xfr) items.
Proof.
  induction items as [|item items IH]; intros st; cbn [foldl flat_map].
  - by rewrite app_nil_r.
  - rewrite IH. unfold alert_step. unfold alert_pass_log at 2.
    destruct (get_nameservers resolve item.1) as [ns l].
    rewrite probe_loop_log. cbn [fst snd]. by rewrite <- !app_assoc.
Qed.

Lemma scan_all_records w domains d recs :
  PyDict.get d (scan_all w domains).1 = Some recs →
  ∃ i, domains !! i = Some d ∧
       recs = (analyze_dns_records (task_resolver w i) d).1.
Proof.
  rewrite scan_all_eq.
  intros (before & f & after & Hsplit & Hd & Hf & _)%collect_get_inv.
  assert (f ∈ as_completed (sched w) (submit_all w domains)) as Hin.
  { rewrite Hsplit. apply elem_of_app. right. by left. }
  apply completed_submitted in Hin as (i & d' & Hi & ->).
  rewrite run_task_dom in Hd. subst d'. exists i. split; [done|].
  rewrite run_task_outcome in Hf. destruct (task_fault w i); congruence.
Qed.

Lemma alerting_nothing w args : alerting w args [] = ([], []).
Proof. unfold alerting. by destruct (_ && _). Qed.




Lemma scan_nothing w : submit_all w [] = [] ∧ scan_all w [] = ([], []).
Proof. done. Qed.

Lemma main_call_returns w s args :
  log_fault s = None → command_line s = Namespace args →
  uncaught (main w args) = None →
  main_call w s = Returns (main w args).
Proof. intros Hl Hc Hu. unfold main_call. by rewrite Hl, Hc, Hu. Qed.

Lemma main_no_target w args :
  given (Args.inventory args) = None → given (Args.domain args) = None →
  main w args
  = {| printed := ["Specify --inventory or a single domain"];
       main_log := []; futures := []; results := []; reports := [];
       mails := []; uncaught := None |}.
Proof. intros Hi Hd. unfold main, determine_domains. by rewrite Hi, Hd. Qed.

Lemma main_missing_inventory w args path :
  given (Args.inventory args) = Some path → fs w path = Missing →
  main w args
  = match reporting w args [] with
    | (Raise e, l2) =>
        {| printed := [];
           main_log := (ERROR, InventoryNotFound path) :: l2;
           futures := []; results := []; reports := [];
           mails := []; uncaught := Some e |}
    | (Ok reps, l2) =>
        {| printed := [summary []];
           main_log := (ERROR, InventoryNotFound path) :: l2 ++ [];
           futures := []; results := []; reports := reps;
           mails := []; uncaught := None |}
    end.
Proof.
  intros Hi Hfs. unfold main, determine_domains, load_inventory.
  rewrite Hi, Hfs. cbn [mbind Result_bind].
  change (collect (as_completed (sched w) (submit_all w [])))
    with (@pair Results Log [] []).
  cbn iota. destruct (reporting w args []) as [[reps|e] l2]; [|done].
  by rewrite alerting_nothing.
Qed.




(** C9 fails on the code.  As shipped the file has a string literal that
    opens at the end of line 204 and is not closed on its line, so the
    interpreter stops with a syntax error, status 1, before any call of
    [main]: the scan runs not once but never.  And the block of lines 210 to
    212 calls [main] twice: with the literal closed, the process run on one
    domain would submit the domain's scan in each of the two calls, build
    the results twice, the second time from what the network answers then,
    and print the summary twice. *)
Theorem scan_pipeline_not_run_once :
  let s := Sample.started (Sample.single "example.com" false) in
  map unterminated lines_200_206
  = [false; false; false; false; true; true; false] ∧
  script Sample.calm Sample.later s = {| runs := []; exit_status := 1 |} ∧
  let p := main_block Sample.calm Sample.later s in
  length (runs p) = 2 ∧
  map (λ r, map dom (futures r)) (runs p)
  = [["example.com"]; ["example.com"]] ∧
  map (λ r, PyDict.get "A" <$> PyDict.get "example.com" (results r)) (runs p)
  = [Some (Some (Values [PyStr "192.0.2.0"]));
     Some (Some (Values [PyStr "192.0.2.10"]))] ∧
  map printed (runs p)
  = [["Analysis complete for 1 domain(s). See logs: dns_suite.log"];
     ["Analysis complete for 1 domain(s). See logs: dns_suite.log"]].
Proof. by vm_compute. Qed.

(** Whatever the world and the command line, the file as shipped runs no
    call of [main]. *)
Lemma script_stops_at_syntax_error w1 w2 s :
  script w1 w2 s = {| runs := []; exit_status := 1 |}.
Proof. done. Qed.

(** * Further properties *)

(** ** Whitespace and lines *)

Lemma append_cons a (s t : string) : String a s +:+ t = String a (s +:+ t).
Proof. done. Qed.

Lemma append_empty_l (s : string) : "" +:+ s = s.
Proof. done. Qed.

Lemma append_snoc cur c rest : snoc cur c +:+ rest = cur +:+ String c rest.
Proof.
  unfold snoc. induction cur as [|a cur IH]; [done|].
  rewrite !append_cons. by f_equal.
Qed.

Lemma append_empty_r s : s +:+ "" = s.
Proof. induction s as [|a s IH]; [done|]. rewrite append_cons. by f_equal. Qed.

Lemma append_assoc (a b c : string) : (a +:+ b) +:+ c = a +:+ (b +:+ c).
Proof.
  induction a as [|x a IH]; [done|]. rewrite !append_cons. by f_equal.
Qed.

Lemma eqb_empty_false (s : string) : s ≠ "" → String.eqb s "" = false.
Proof. by destruct s. Qed.

Lemma lstrip_head s :
  lstrip s = "" ∨ ∃ c rest, lstrip s = String c rest ∧ is_space c = false.
Proof.
  induction s as [|c s IH]; simpl; [by left|].
  destruct (is_space c) eqn:Hc; [done|]. right. by exists c, s.
Qed.

Lemma lstrip_fixed c rest : is_space c = false → lstrip (String c rest) = String c rest.
Proof. intros H. simpl. by rewrite H. Qed.

Lemma rstrip_cons c rest :
  is_space c = false → rstrip (String c rest) = String c (rstrip rest).
Proof. intros H. simpl. by rewrite H. Qed.

Lemma rstrip_idemp s : rstrip (rstrip s) = rstrip s.
Proof.
  induction s as [|c s IH]; simpl; [done|].
  destruct (is_space c && String.eqb (rstrip s) "") eqn:Hc; [done|].
  simpl. by rewrite IH, Hc.
Qed.

Lemma strip_idemp s : strip (strip s) = strip s.
Proof.
  unfold strip. destruct (lstrip_head s) as [->|(c & rest & -> & Hc)]; [done|].
  rewrite (rstrip_cons _ _ Hc), (lstrip_fixed _ _ Hc), <- (rstrip_cons _ _ Hc).
  apply rstrip_idemp.
Qed.

Lemma strip_lstrip s : lstrip (strip s) = strip s.
Proof.
  unfold strip. destruct (lstrip_head s) as [->|(c & rest & -> & Hc)]; [done|].
  by rewrite (rstrip_cons _ _ Hc), (lstrip_fixed _ _ Hc).
Qed.

Lemma strip_rstrip s : rstrip (strip s) = strip s.
Proof. unfold strip. apply rstrip_idemp. Qed.

Lemma nonempty_true s : nonempty s = true ↔ s ≠ "".
Proof. unfold nonempty. by destruct s. Qed.

Lemma not_space_not_eol c :
  is_space c = false →
  Nat.eqb (nat_of_ascii c) 10 = false ∧ Nat.eqb (nat_of_ascii c) 13 = false.
Proof. by destruct c as [[] [] [] [] [] [] [] []]. Qed.

Lemma readlines_from_word d : ∀ cur rest,
  free_of is_space d →
  readlines_from cur (d +:+ rest) = readlines_from (cur +:+ d) rest.
Proof.
  induction d as [|c d IH]; intros cur rest Hd.
  - by rewrite append_empty_r.
  - destruct Hd as [Hc Hd]. apply not_space_not_eol in Hc as [H10 H13].
    rewrite append_cons. cbn [readlines_from]. rewrite H10, H13.
    rewrite IH by done. by rewrite append_snoc.
Qed.

Lemma readlines_from_eol eol cur rest :
  eol = LF ∨ eol = CR +:+ LF →
  readlines_from cur (eol +:+ rest) = (cur +:+ LF) :: readlines_from "" rest.
Proof. by intros [->| ->]. Qed.

Lemma readlines_file_of eol ds :
  eol = LF ∨ eol = CR +:+ LF →
  Forall (free_of is_space) ds →
  readlines (file_of eol ds) = map (λ d, d +:+ LF) ds.
Proof.
  intros Heol Hds. unfold readlines.
  induction Hds as [|d ds Hd Hds IH]; [done|].
  cbn [file_of foldr map]. rewrite readlines_from_word by done.
  rewrite readlines_from_eol by done. by f_equal.
Qed.

Lemma rstrip_word_eol d : free_of is_space d → rstrip (d +:+ LF) = d.
Proof.
  induction d as [|c d IH]; [done|]. intros [Hc Hd].
  rewrite append_cons, rstrip_cons by done. f_equal. by apply IH.
Qed.

Lemma strip_word_eol d : free_of is_space d → strip (d +:+ LF) = d.
Proof.
  intros Hd. unfold strip. destruct d as [|c d]; [done|].
  rewrite append_cons, lstrip_fixed by apply Hd.
  rewrite <- append_cons. by apply rstrip_word_eol.
Qed.

(** ** [load_inventory] *)

(** Whatever the file holds, the domains [load_inventory] returns are never
    blank and carry no whitespace at either end.  A missing file gives the
    empty list and the ERROR record of the missing path; a file that is read
    gives the INFO record with the number of domains returned. *)
Theorem load_inventory_entries_stripped fs path domains l :
  load_inventory fs path = (Ok domains, l) →
  Forall (λ d, d ≠ "" ∧ lstrip d = d ∧ rstrip d = d ∧ strip d = d) domains ∧
  match fs path with
  | Missing => domains = [] ∧ l = [(ERROR, InventoryNotFound path)]
  | Readable _ => l = [(INFO, LoadedInventory (length domains))]
  | Unreadable _ => False
  end.
Proof.
  unfold load_inventory. destruct (fs path) as [|content|e]; intros [= <- <-].
  - split; [constructor | done].
  - split; [|done]. apply Forall_forall. intros d Hd.
    apply list_elem_of_fmap in Hd as (line & -> & Hline).
    apply list_elem_of_filter in Hline as [Hne _].
    apply nonempty_true in Hne.
    by rewrite strip_lstrip, strip_rstrip, strip_idemp.
Qed.

Lemma load_inventory_entries_stripped_sample :
  load_inventory (fs Sample.calm) "nowhere.txt"
  = (Ok [], [(ERROR, InventoryNotFound "nowhere.txt")]) ∧
  Forall (λ d, d ≠ "" ∧ lstrip d = d ∧ rstrip d = d ∧ strip d = d)
         ["x.com"; "x.com"; "y.com"] ∧
  (@nil string = [] ∧
   [(ERROR, InventoryNotFound "nowhere.txt")]
   = [(ERROR, InventoryNotFound "nowhere.txt")]).
Proof.
  split; [reflexivity|]. split.
  - exact (proj1 (load_inventory_entries_stripped (fs Sample.calm)
                    "domains.txt" ["x.com"; "x.com"; "y.com"]
                    [(INFO, LoadedInventory 3)] eq_refl)).
  - exact (proj2 (load_inventory_entries_stripped (fs Sample.calm)
                    "nowhere.txt" []
                    [(ERROR, InventoryNotFound "nowhere.txt")] eq_refl)).
Defined.

(** A file written with one domain per line, ended by LF or by CR LF, is read
    back as the same list, in order and with its repetitions, when the
    domains are not empty and hold no whitespace. *)
Theorem load_inventory_reads_back fs path eol ds :
  eol = LF ∨ eol = CR +:+ LF →
  Forall (λ d, d ≠ "" ∧ free_of is_space d) ds →
  fs path = Readable (file_of eol ds) →
  load_inventory fs path = (Ok ds, [(INFO, LoadedInventory (length ds))]).
Proof.
  intros Heol Hds Hfs. unfold load_inventory. rewrite Hfs.
  assert (Forall (free_of is_space) ds) as Hfree.
  { eapply Forall_impl; [exact Hds|]. by intros d [_ ?]. }
  rewrite readlines_file_of by done.
  assert (map strip
            (filter (λ line, nonempty (strip line) = true)
                    (map (λ d, d +:+ LF) ds)) = ds) as ->; [|done].
  clear Hfs Hfree. induction Hds as [|d ds [Hne Hd] Hds IH]; [done|].
  cbn [map]. rewrite filter_cons, strip_word_eol by done.
  rewrite decide_True by (by apply nonempty_true).
  cbn [map]. rewrite strip_word_eol by done. by f_equal.
Qed.

Lemma load_inventory_reads_back_sample :
  load_inventory (fs Sample.calm) "domains.txt"
  = (Ok ["x.com"; "x.com"; "y.com"], [(INFO, LoadedInventory 3)]).
Proof.
  apply (load_inventory_reads_back (fs Sample.calm) "domains.txt" LF
           ["x.com"; "x.com"; "y.com"]).
  - by left.
  - repeat constructor; done.
  - reflexivity.
Defined.

(** ** The lines of a transferred zone *)

Lemma free_of_snoc p cur c :
  free_of p cur → p c = false → free_of p (snoc cur c).
Proof.
  unfold snoc. induction cur as [|a cur IH]; [done|].
  intros [Ha Hcur] Hc. rewrite append_cons. split; [done|]. by apply IH.
Qed.

Lemma splitlines_from_free n : ∀ s cur,
  String.length s ≤ n →
  free_of is_linebreak cur →
  Forall (free_of is_linebreak) (splitlines_from cur s).
Proof.
  induction n as [|n IH]; intros s cur Hlen Hcur.
  - destruct s; [|simpl in Hlen; lia]. simpl.
    destruct (String.eqb cur ""); by repeat constructor.
  - destruct s as [|c rest]; simpl.
    { destruct (String.eqb cur ""); by repeat constructor. }
    simpl in Hlen. destruct (is_linebreak c) eqn:Hc.
    + destruct rest as [|c' rest']; [by repeat constructor|].
      simpl in Hlen. destruct (_ && _).
      * constructor; [done|]. apply IH; [lia|done].
      * constructor; [done|]. apply IH; [simpl; lia|done].
    + apply IH; [lia|]. by apply free_of_snoc.
Qed.

Lemma splitlines_from_line l : ∀ cur rest,
  free_of is_linebreak l →
  splitlines_from cur (l +:+ rest) = splitlines_from (cur +:+ l) rest.
Proof.
  induction l as [|c l IH]; intros cur rest Hl.
  - by rewrite append_empty_r.
  - destruct Hl as [Hc Hl]. rewrite append_cons. cbn [splitlines_from].
    rewrite Hc, IH by done. by rewrite append_snoc.
Qed.

Lemma splitlines_from_LF cur rest :
  rest ≠ "" →
  splitlines_from cur (LF +:+ rest) = cur :: splitlines_from "" rest.
Proof. by destruct rest. Qed.

Lemma append_LF_nonempty (a b : string) : a +:+ LF +:+ b ≠ "".
Proof. by destruct a. Qed.

Lemma splitlines_concat l0 lines :
  Forall (free_of is_linebreak) (l0 :: lines) →
  last (l0 :: lines) ≠ Some "" →
  splitlines (String.concat LF (l0 :: lines)) = l0 :: lines.
Proof.
  unfold splitlines. revert l0.
  induction lines as [|l1 ls IH]; intros l0 Hfree Hlast.
  - cbn [String.concat]. apply Forall_cons in Hfree as [Hl0 _].
    rewrite <- (append_empty_r l0) at 1.
    rewrite splitlines_from_line by done. cbn [splitlines_from].
    rewrite append_empty_l, eqb_empty_false; [done|].
    intros ->. by apply Hlast.
  - apply Forall_cons in Hfree as [Hl0 Hfree].
    change (String.concat LF (l0 :: l1 :: ls))
      with (l0 +:+ LF +:+ String.concat LF (l1 :: ls)).
    rewrite splitlines_from_line, append_empty_l by done.
    rewrite splitlines_from_LF.
    + f_equal. apply IH; [done|]. by rewrite last_cons_cons in Hlast.
    + destruct ls as [|l2 ls]; [|apply append_LF_nonempty].
      cbn [String.concat]. intros ->. by apply Hlast.
Qed.

(** No line [check_zone_transfer] returns holds a line boundary: the text of
    the zone is cut at every one of them. *)
Theorem check_zone_transfer_lines_whole xfr domain nameserver :
  Forall (free_of is_linebreak) (check_zone_transfer xfr domain nameserver).1.
Proof.
  unfold check_zone_transfer. destruct (xfr nameserver domain) as [text|e].
  - cbn [fst]. by apply (splitlines_from_free (String.length text)).
  - constructor.
Qed.

(** When the zone's text is a list of lines joined by newlines, the lines
    holding no line boundary and the last of them not empty,
    [check_zone_transfer] returns that list of lines. *)
Theorem check_zone_transfer_returns_lines xfr domain nameserver lines :
  Forall (free_of is_linebreak) lines →
  last lines ≠ Some "" →
  xfr nameserver domain = Ok (String.concat LF lines) →
  check_zone_transfer xfr domain nameserver
  = (lines, [(WARNING, ZoneTransferAllowed nameserver domain)]).
Proof.
  intros Hfree Hlast Hx. unfold check_zone_transfer. rewrite Hx. f_equal.
  destruct lines as [|l0 lines]; [done|]. by apply splitlines_concat.
Qed.

Lemma check_zone_transfer_returns_lines_sample :
  check_zone_transfer Sample.xfr "example.com" "ns1.example.com."
  = (["a."; "b."],
     [(WARNING, ZoneTransferAllowed "ns1.example.com." "example.com")]).
Proof.
  apply (check_zone_transfer_returns_lines Sample.xfr "example.com"
           "ns1.example.com." ["a."; "b."]).
  - repeat constructor.
  - discriminate.
  - reflexivity.
Defined.

(** ** The resolver, again *)

Lemma comprehension_map {A B C} (f : A → Result B) (g : B → C) l :
  comprehension (λ a, b ← f a; Ok (g b)) l
  = (bs ← comprehension f l; Ok (map g bs)).
Proof.
  induction l as [|a l IH]; [done|]. cbn [comprehension].
  rewrite IH. destruct (f a) as [b|e]; [|done]. cbn.
  by destruct (comprehension f l).
Qed.

Lemma comprehension_strings {A} (f : A → Result PyVal) l : ∀ vals,
  (∀ a v, f a = Ok v → ∃ s, v = PyStr s) →
  comprehension f l = Ok vals →
  length vals = length l ∧ Forall (λ v, ∃ s, v = PyStr s) vals.
Proof.
  induction l as [|a l IH]; intros vals Hf; cbn [comprehension].
  - by intros [= <-].
  - destruct (f a) as [v|e] eqn:Ha; [|done]. cbn.
    destruct (comprehension f l) as [vs|e]; [|done]. cbn. intros [= <-].
    destruct (IH vs Hf eq_refl) as [Hlen Hall].
    split; [by rewrite !length_cons, Hlen|]. constructor; [eauto|done].
Qed.

(** Under every type but SOA a stored list holds strings only, one for each
    answer of the query. *)
Theorem list_records_one_string_per_answer resolve domain rtype vals :
  rtype ∈ types → rtype ≠ "SOA" →
  PyDict.get rtype (analyze_dns_records resolve domain).1 = Some (Values vals) →
  ∃ answers, resolve domain rtype = Ok answers ∧
             length vals = length answers ∧
             Forall (λ v, ∃ s, v = PyStr s) vals.
Proof.
  intros Hin Hsoa. rewrite analyze_dns_records_get by done.
  unfold record_for, query.
  destruct (resolve domain rtype) as [answers|e]; [|done]. cbn.
  destruct (format_answers rtype answers) as [vs|e] eqn:Hfmt; [|done].
  intros [= <-]. exists answers. split; [done|].
  unfold types in Hin.
  repeat (apply elem_of_cons in Hin as [->|Hin];
    [first [done
           | eapply comprehension_strings; [|exact Hfmt]; intros a v;
             cbn beta; destruct a; cbn; try done; intros [= <-]; eauto]|]).
  by apply elem_of_nil in Hin.
Qed.

Lemma list_records_one_string_per_answer_sample :
  ∃ answers, Sample.resolver "example.com" "SRV" = Ok answers ∧
             length [PyStr "10 20 443 sip.example.com."] = length answers ∧
             Forall (λ v, ∃ s, v = PyStr s)
                    [PyStr "10 20 443 sip.example.com."].
Proof.
  apply (list_records_one_string_per_answer Sample.resolver "example.com"
           "SRV" [PyStr "10 20 443 sip.example.com."]).
  - compute_done.
  - discriminate.
  - reflexivity.
Defined.

(** Answered alike, [get_nameservers] and the scan agree: the hostnames it
    returns are the strings the scan stores under ["NS"], and it returns no
    nameserver exactly where the scan stores an error text. *)
Theorem get_nameservers_agrees_with_scan resolve domain :
  let ns := get_nameservers resolve domain in
  match PyDict.get "NS" (analyze_dns_records resolve domain).1 with
  | Some (Values vals) =>
      vals = map PyStr ns.1 ∧ ns.2 = [(INFO, NameserversFor domain ns.1)]
  | Some (ErrorText text) =>
      ns.1 = [] ∧
      ∃ e, text = "Error: " +:+ e ∧ ns.2 = [(ERROR, FailedToFetchNS domain e)]
  | None => False
  end.
Proof.
  rewrite analyze_dns_records_get by compute_done.
  unfold record_for, query, get_nameservers.
  destruct (resolve domain "NS") as [answers|e]; cbn; [|eauto].
  change (format_answers "NS" answers)
    with (comprehension (λ r, t ← target r; Ok (PyStr t)) answers).
  rewrite comprehension_map.
  destruct (comprehension target answers) as [ns|e]; cbn; eauto.
Qed.

(** ** The orchestrator, again *)

Lemma scan_all_get_distinct w domains i d :
  NoDup domains → domains !! i = Some d →
  PyDict.get d (scan_all w domains).1
  = match task_fault w i with
    | Some _ => None
    | None => Some (analyze_dns_records (task_resolver w i) d).1
    end.
Proof.
  intros Hnd Hi. rewrite scan_all_eq.
  set (completed := as_completed (sched w) (submit_all w domains)).
  assert (NoDup (map dom completed)) as Hdoms.
  { subst completed. by rewrite completed_dom_Permutation. }
  assert (run_task w i d ∈ completed) as Hin
    by (apply completed_submitted; eauto).
  destruct (task_fault w i) as [e|] eqn:Hfault.
  - unfold collect. rewrite collect_loop_get_other; [done|].
    intros g Hg Hd. apply completed_submitted in Hg as (j & d' & Hj & ->).
    rewrite run_task_dom in Hd. subst d'.
    assert (j = i) as -> by exact (NoDup_lookup _ _ _ _ Hnd Hj Hi).
    exists e. by rewrite run_task_outcome, Hfault.
  - apply list_elem_of_split in Hin as (before & after & Hsplit).
    rewrite Hsplit, <- (run_task_dom w i d) at 1.
    apply collect_get_last.
    + by rewrite run_task_outcome, Hfault.
    + intros g Hg Hdg. exfalso. rewrite Hsplit, map_app in Hdoms.
      apply NoDup_app in Hdoms as (_ & _ & Hdoms). cbn [map] in Hdoms.
      apply NoDup_cons in Hdoms as [Hdoms _]. apply Hdoms. rewrite <- Hdg.
      apply list_elem_of_fmap. eauto.
Qed.

Lemma scan_all_get_absent w domains d :
  d ∉ domains → PyDict.get d (scan_all w domains).1 = None.
Proof.
  intros Hd. rewrite scan_all_eq. unfold collect.
  rewrite collect_loop_get_other; [done|].
  intros g Hg Hdg. apply completed_submitted in Hg as (j & d' & Hj & ->).
  rewrite run_task_dom in Hdg. subst d'. destruct Hd.
  apply list_elem_of_lookup. eauto.
Qed.

Lemma scan_all_keys_NoDup w domains : NoDup (PyDict.keys (scan_all w domains).1).
Proof. rewrite scan_all_eq. unfold collect. apply collect_loop_NoDup. constructor. Qed.

Lemma elem_of_keys_get {V} (d : PyDict.t V) k :
  k ∈ PyDict.keys d ↔ PyDict.get k d ≠ None.
Proof.
  split.
  - intros Hin Hget. by apply get_None in Hget.
  - intros Hget. destruct (decide (k ∈ PyDict.keys d)) as [|Hn]; [done|].
    by apply get_None in Hn.
Qed.

(** With pairwise distinct domains the results do not depend on the order in
    which the pool completes the tasks: every domain has the same entry, and
    only the order of the keys may change. *)
Theorem scan_results_independent_of_schedule w s domains :
  NoDup domains →
  (∀ d, PyDict.get d (scan_all (with_sched s w) domains).1
        = PyDict.get d (scan_all w domains).1) ∧
  PyDict.keys (scan_all (with_sched s w) domains).1
  ≡ₚ PyDict.keys (scan_all w domains).1.
Proof.
  intros Hnd.
  assert (∀ d, PyDict.get d (scan_all (with_sched s w) domains).1
               = PyDict.get d (scan_all w domains).1) as Hget.
  { intros d. destruct (decide (d ∈ domains)) as [Hin|Hn].
    - apply list_elem_of_lookup in Hin as [i Hi].
      by rewrite !(scan_all_get_distinct _ domains i d).
    - by rewrite !scan_all_get_absent. }
  split; [done|].
  apply NoDup_Permutation; [apply scan_all_keys_NoDup..|].
  intros d. by rewrite !elem_of_keys_get, Hget.
Qed.

Lemma scan_results_independent_of_schedule_sample :
  PyDict.keys (scan_all (with_sched (λ _, 0) Sample.calm)
                 ["a.com"; "b.com"; "c.com"]).1
  ≡ₚ PyDict.keys (scan_all Sample.calm ["a.com"; "b.com"; "c.com"]).1.
Proof.
  assert (NoDup ["a.com"; "b.com"; "c.com"]) as Hnd by compute_done.
  exact (proj2 (scan_results_independent_of_schedule Sample.calm (λ _, 0)
                  ["a.com"; "b.com"; "c.com"] Hnd)).
Defined.

(** With a repeated domain the order of completion does show: the entry is
    that of the task of the domain that completes last. *)
Example scan_results_depend_on_schedule_of_duplicates :
  PyDict.get "A" <$>
    PyDict.get "x.com" (scan_all Sample.calm ["x.com"; "x.com"]).1
  = Some (Some (Values [PyStr "192.0.2.0"])) ∧
  PyDict.get "A" <$>
    PyDict.get "x.com"
      (scan_all (with_sched (λ _, 0) Sample.calm) ["x.com"; "x.com"]).1
  = Some (Some (Values [PyStr "192.0.2.1"])).
Proof. by vm_compute. Qed.

Lemma length_set {V} k (v : V) d :
  length (PyDict.set k v d) ≤ S (length d).
Proof.
  induction d as [|[k' v'] d IH]; simpl; [lia|].
  destruct (String.eqb k k'); simpl; lia.
Qed.

Lemma collect_loop_length fs : ∀ st,
  length (foldl collect_step st fs).1 ≤ length st.1 + length fs.
Proof.
  induction fs as [|f fs IH]; intros st; cbn [foldl length]; [lia|].
  etrans; [apply IH|]. unfold collect_step.
  destruct (outcome f); cbn [fst]; [|lia].
  pose proof (length_set (dom f) recs st.1). lia.
Qed.

(** The number in the closing summary is the number of domains handed to the
    pool, one future each, whatever became of their tasks; the results never
    have more entries than that. *)
Theorem summary_counts_submitted_domains w args ds l0 :
  determine_domains w args = (Ok (Some ds), l0) →
  let r := main w args in
  length (futures r) = length ds ∧
  length (results r) ≤ length ds ∧
  (uncaught r = None →
     printed r
     = ["Analysis complete for " +:+ pretty (length ds)
          +:+ " domain(s). See logs: dns_suite.log"]).
Proof.
  intros Hdet r. subst r.
  destruct (main_scan w args) as [Hres Hfut]. rewrite Hres, Hfut.
  unfold scanned_domains. rewrite Hdet. split_and!.
  - unfold submit_all. apply length_imap.
  - rewrite scan_all_eq. unfold collect.
    etrans; [apply collect_loop_length|]. cbn [fst length].
    rewrite (Permutation_length (as_completed_Permutation _ _)).
    unfold submit_all. by rewrite length_imap.
  - unfold main. rewrite Hdet. destruct (collect _) as [res l1].
    destruct (reporting w args res) as [[reps|e] l2]; [|done].
    by destruct (alerting w args res).
Qed.

Lemma summary_counts_submitted_domains_sample :
  length (results (main Sample.world (Sample.bulk "domains.txt"))) ≤ 3.
Proof.
  exact (proj1 (proj2
    (summary_counts_submitted_domains Sample.world
       (Sample.bulk "domains.txt") ["x.com"; "x.com"; "y.com"]
       [(INFO, LoadedInventory 3)] eq_refl))).
Defined.

(** ** [main], again *)

(** When [--inventory] is given, a positional domain given with it is
    ignored: the run is the run over the inventory alone. *)
Theorem inventory_overrides_domain w args path d :
  given (Args.inventory args) = Some path →
  main w (with_domain d args) = main w args.
Proof.
  intros Hi. unfold main, determine_domains. cbn [with_domain Args.inventory].
  rewrite Hi. done.
Qed.

Lemma inventory_overrides_domain_sample :
  main Sample.calm
    (with_domain (Some "example.com") (Sample.bulk "domains.txt"))
  = main Sample.calm (Sample.bulk "domains.txt").
Proof.
  exact (inventory_overrides_domain Sample.calm (Sample.bulk "domains.txt")
           "domains.txt" (Some "example.com") eq_refl).
Defined.

Lemma main_uncaught w args :
  uncaught (main w args)
  = match determine_domains w args with
    | (Raise e, _) => Some e
    | (Ok None, _) => None
    | (Ok (Some ds), _) =>
        match (reporting w args (scan_all w ds).1).1 with
        | Raise e => Some e
        | Ok _ => None
        end
    end.
Proof.
  unfold main, scan_all.
  destruct (determine_domains w args) as [[[ds|]|e] l0]; [|done..].
  destruct (collect _) as [res l1]. cbn [fst].
  destruct (reporting w args res) as [[reps|e] l2]; [|done].
  by destruct (alerting w args res).
Qed.

Lemma determine_domains_raises w args e :
  (determine_domains w args).1 = Raise e ↔
  ∃ path, given (Args.inventory args) = Some path ∧ fs w path = Unreadable e.
Proof.
  unfold determine_domains, load_inventory.
  destruct (given (Args.inventory args)) as [path|].
  - destruct (fs w path) eqn:Hfs; cbn; split; intros H.
    + done.
    + destruct H as (? & [= <-] & ?). congruence.
    + done.
    + destruct H as (? & [= <-] & ?). congruence.
    + injection H as <-. eauto.
    + destruct H as (? & [= <-] & ?). congruence.
  - destruct (given (Args.domain args)); cbn; split; intros H;
      first [ done | by destruct H as (? & ? & ?) ].
Qed.

Lemma reporting_raises w args res e :
  (reporting w args res).1 = Raise e ↔
  Args.report args ≠ None ∧ optional_libs w = true ∧
  report_fault w (Args.report_out args) = Some e.
Proof.
  unfold reporting, generate_html_report, generate_xlsx_report.
  destruct (Args.report args) as [[]|], (optional_libs w),
    (report_fault w (Args.report_out args)); cbn; split; intros H;
    first [ done
          | by destruct H as (? & ? & ?)
          | by injection H as <-
          | by destruct H as (_ & _ & [= <-]) ].
Qed.

(** From line 162 on an exception leaves [main] in two cases only: the
    inventory file exists and cannot be opened, or writing the requested
    report fails. *)
Lemma lines_162_208_raise_only_on_file_errors w args e :
  uncaught (main w args) = Some e ↔
  (∃ path, given (Args.inventory args) = Some path ∧
           fs w path = Unreadable e) ∨
  ((∃ ds, (determine_domains w args).1 = Ok (Some ds)) ∧
   Args.report args ≠ None ∧ optional_libs w = true ∧
   report_fault w (Args.report_out args) = Some e).
Proof.
  rewrite main_uncaught, <- determine_domains_raises.
  destruct (determine_domains w args) as [[[ds|]|e'] l0] eqn:Hdet; cbn [fst].
  - rewrite <- (reporting_raises w args (scan_all w ds).1).
    destruct (reporting w args (scan_all w ds).1).1 as [reps|e'']; split.
    + done.
    + by intros [?|(_ & ?)].
    + intros [= <-]. right. eauto.
    + by intros [?|(_ & [= ->])].
  - split; [done|]. by intros [?|((? & ?) & _)].
  - split; [intros [= <-]; by left|]. by intros [[= ->]|((? & ?) & _)].
Qed.



(** A mail that cannot be delivered does not change the run: whatever the
    mail server does, [main] prints, returns and hands to the mailer the
    same things, and a failed delivery is the last record of its log. *)
Theorem failed_mail_is_logged_not_raised w m args :
  let r := main w args in
  let r' := main (with_smtp m w) args in
  printed r' = printed r ∧ results r' = results r ∧
  reports r' = reports r ∧ mails r' = mails r ∧
  uncaught r' = uncaught r ∧
  (∀ mail e, mail ∈ mails r' → m mail = Some e →
     last (main_log r') = Some (ERROR, FailedToSendEmail e)).
Proof.
  intros r r'. subst r r'. unfold main.
  change (determine_domains (with_smtp m w) args)
    with (determine_domains w args).
  destruct (determine_domains w args) as [[[ds|]|e] l0];
    [|by split_and!; try done; intros ?? ?%elem_of_nil..].
  change (submit_all (with_smtp m w) ds) with (submit_all w ds).
  change (sched (with_smtp m w)) with (sched w).
  destruct (collect _) as [res l1].
  change (reporting (with_smtp m w) args res) with (reporting w args res).
  destruct (reporting w args res) as [[reps|e] l2];
    [|by split_and!; try done; intros ?? ?%elem_of_nil].
  unfold alerting.
  change (alert_resolver (with_smtp m w)) with (alert_resolver w).
  change (xfr_client (with_smtp m w)) with (xfr_client w).
  change (smtp (with_smtp m w)) with m.
  destruct (Args.alert_email args && truthy (Args.smtp_server args));
    [|by split_and!; try done; intros ?? ?%elem_of_nil].
  destruct (decide_alert (alert_resolver w) (xfr_client w) res)
    as [[text|] l];
    [|by split_and!; try done; intros ?? ?%elem_of_nil].
  cbn. split_and!; [done..|].
  intros mail e ->%list_elem_of_singleton Hm.
  unfold send_email_notification. rewrite Hm.
  by rewrite !app_assoc, last_snoc.
Qed.

Lemma failed_mail_is_logged_not_raised_sample :
  printed (main (with_smtp (λ _, Some "Connection refused") Sample.world)
             (Sample.bulk "domains.txt"))
  = printed (main Sample.world (Sample.bulk "domains.txt")).
Proof.
  exact (proj1 (failed_mail_is_logged_not_raised Sample.world
                  (λ _, Some "Connection refused")
                  (Sample.bulk "domains.txt"))).
Defined.

(** Without [pandas] and [jinja2] a requested report is never written, and
    the run otherwise goes as it would without [--report]: same output,
    results, mails and outcome, the log holding one more ERROR record. *)
Theorem missing_libraries_skip_report w args :
  optional_libs w = false →
  let r := main w args in
  let r0 := main w (with_report None args) in
  reports r = [] ∧ printed r = printed r0 ∧ results r = results r0 ∧
  futures r = futures r0 ∧ mails r = mails r0 ∧ uncaught r = uncaught r0 ∧
  (∀ fmt, Args.report args = Some fmt → results r ≠ [] →
     (ERROR, match fmt with
             | html => Jinja2NotInstalled
             | xlsx => PandasNotInstalled
             end) ∈ main_log r).
Proof.
  intros Hlibs r r0. subst r r0. unfold main.
  change (determine_domains w (with_report None args))
    with (determine_domains w args).
  destruct (determine_domains w args) as [[[ds|]|e] l0];
    [|by split_and!..].
  destruct (collect _) as [res l1].
  change (alerting w (with_report None args) res) with (alerting w args res).
  unfold reporting, generate_html_report, generate_xlsx_report.
  cbn [with_report Args.report]. rewrite Hlibs.
  destruct (alerting w args res) as [ms l3].
  destruct (Args.report args) as [[]|]; cbn; split_and!; try done;
    intros fmt [= <-] _; rewrite !elem_of_app, elem_of_cons; tauto.
Qed.

Lemma missing_libraries_skip_report_sample :
  reports (main Sample.no_libs
             (with_report (Some xlsx) (Sample.bulk "domains.txt")))
  = [].
Proof.
  exact (proj1 (missing_libraries_skip_report Sample.no_libs
                  (with_report (Some xlsx) (Sample.bulk "domains.txt"))
                  eq_refl)).
Defined.

(** ** The spreadsheet rows *)

Lemma get_of_elem {V} (d : PyDict.t V) k v :
  NoDup (PyDict.keys d) → (k, v) ∈ d → PyDict.get k d = Some v.
Proof.
  induction d as [|[k' v'] d IH]; cbn [PyDict.keys map PyDict.get].
  - intros _ Hin. by apply elem_of_nil in Hin.
  - intros [Hk Hnd]%NoDup_cons [[= -> ->]|Hin]%elem_of_cons.
    + by rewrite String.eqb_refl.
    + destruct (String.eqb_spec k k') as [->|Hne]; [|by apply IH].
      destruct Hk. apply list_elem_of_fmap. by exists (k', v).
Qed.

Lemma scan_all_items_nine w ds :
  Forall (λ item : string * Records, PyDict.keys item.2 = types)
         (scan_all w ds).1.
Proof.
  apply Forall_forall. intros [d recs] Hin.
  apply get_of_elem in Hin; [|apply scan_all_keys_NoDup].
  apply scan_all_records in Hin as (i & _ & ->).
  by rewrite analyze_dns_records_eq.
Qed.

Lemma xlsx_rows_cells (res : Results) :
  Forall (λ item : string * Records, PyDict.keys item.2 = types) res →
  map (λ row, (row_domain row, row_type row)) (xlsx_rows res)
  = flat_map (λ d, map (pair d) types) (PyDict.keys res).
Proof.
  unfold xlsx_rows, PyDict.items.
  induction 1 as [|[d recs] res Hrecs _ IH]; [done|].
  cbn [flat_map PyDict.keys map]. rewrite map_app, IH. f_equal.
  cbn [fst snd] in *. rewrite <- Hrecs. unfold PyDict.keys.
  rewrite !map_map. done.
Qed.

Lemma nine_per_key (ks : list string) :
  length (flat_map (λ d, map (pair d) types) ks) = 9 * length ks.
Proof.
  induction ks as [|k ks IH]; [done|].
  cbn [flat_map]. rewrite length_app, IH. cbn [length map types]. lia.
Qed.

(** The sheet of a run has nine rows for each domain of the results, in the
    order of the results and, within a domain, of the nine record types. *)
Theorem xlsx_rows_nine_per_domain w args :
  let res := results (main w args) in
  map (λ row, (row_domain row, row_type row)) (xlsx_rows res)
  = flat_map (λ d, map (pair d) types) (PyDict.keys res) ∧
  length (xlsx_rows res) = 9 * length res.
Proof.
  intros res. subst res. rewrite (proj1 (main_scan w args)).
  pose proof (xlsx_rows_cells _ (scan_all_items_nine w (scanned_domains w args)))
    as Hcells.
  split; [done|].
  apply (f_equal length) in Hcells. rewrite length_map in Hcells.
  rewrite Hcells, nine_per_key. unfold PyDict.keys. by rewrite length_map.
Qed.

Lemma chars_concat_length s :
  s ≠ "" →
  String.length (String.concat "," (chars s)) = 2 * String.length s - 1.
Proof.
  induction s as [|c s IH]; [done|]. intros _.
  destruct s as [|c' s]; [done|].
  change (String.concat "," (chars (String c (String c' s))))
    with (String c (String "," (String.concat "," (chars (String c' s))))).
  cbn [String.length] in *. rewrite IH by done. lia.
Qed.

(** After a failed query the Value cell of the type's row is the error text
    with a comma between every two of its characters, the join running over
    the characters of the text. *)
Theorem xlsx_error_cell_spelled_out resolve domain rtype e :
  rtype ∈ types →
  resolve domain rtype = Raise e →
  ∃ v, PyDict.get rtype (analyze_dns_records resolve domain).1 = Some v ∧
       xlsx_value v = String.concat "," (chars ("Error: " +:+ e)) ∧
       String.length (xlsx_value v) = 2 * String.length e + 13.
Proof.
  intros Hin He. exists (ErrorText ("Error: " +:+ e)). split_and!.
  - rewrite analyze_dns_records_get by done. f_equal.
    by apply record_for_error.
  - done.
  - cbn [xlsx_value]. rewrite chars_concat_length by done.
    change (String.length ("Error: " +:+ e)) with (7 + String.length e). lia.
Qed.

Lemma xlsx_error_cell_spelled_out_sample :
  ∃ v, PyDict.get "MX" (analyze_dns_records (λ _ _, Raise "no") "x.com").1
       = Some v ∧
       xlsx_value v = "E,r,r,o,r,:, ,n,o" ∧
       String.length (xlsx_value v) = 17.
Proof.
  apply (xlsx_error_cell_spelled_out (λ _ _, Raise "no") "x.com" "MX" "no").
  - compute_done.
  - reflexivity.
Defined.

(** ** The alert, again *)

Lemma probed_pairs_domain resolve (res : Results) p :
  p ∈ probed_pairs resolve res → p.1 ∈ PyDict.keys res.
Proof.
  unfold probed_pairs, PyDict.items. rewrite list_elem_of_In, in_flat_map.
  intros (item & Hitem & Hp). apply list_elem_of_In in Hitem, Hp.
  apply list_elem_of_fmap in Hp as (n & -> & _).
  apply list_elem_of_fmap. by exists item.
Qed.

Lemma scan_all_key_returned w ds d :
  d ∈ PyDict.keys (scan_all w ds).1 →
  ∃ i, ds !! i = Some d ∧ task_fault w i = None.
Proof.
  rewrite scan_all_eq. unfold collect. rewrite collect_loop_keys.
  intros [Hin|(g & recs & Hg & Hd & Ho)]; [by apply elem_of_nil in Hin|].
  apply completed_submitted in Hg as (i & d' & Hi & ->).
  rewrite run_task_dom in Hd. subst d'. exists i. split; [done|].
  rewrite run_task_outcome in Ho. by destruct (task_fault w i).
Qed.

(** The alert pass probes the domains of the results only: a nameserver is
    probed for a domain only if a task of that domain returned, so a domain
    left out of the results after its task raised is not checked for zone
    transfer either. *)
Theorem alert_probes_reported_domains_only w args p :
  p ∈ probed_pairs (alert_resolver w) (results (main w args)) →
  p.1 ∈ PyDict.keys (results (main w args)) ∧
  ∃ i, scanned_domains w args !! i = Some p.1 ∧ task_fault w i = None.
Proof.
  intros Hp%probed_pairs_domain. split; [done|].
  rewrite (proj1 (main_scan w args)) in Hp. by apply scan_all_key_returned.
Qed.

Lemma alert_probes_reported_domains_only_sample :
  ("y.com", "ns1.example.com.").1
  ∈ PyDict.keys (results (main Sample.world (Sample.bulk "domains.txt"))).
Proof.
  apply (alert_probes_reported_domains_only Sample.world
           (Sample.bulk "domains.txt") ("y.com", "ns1.example.com.")).
  compute_done.
Defined.

Lemma get_nameservers_one_record resolve d :
  length (get_nameservers resolve d).2 = 1.
Proof.
  unfold get_nameservers.
  by destruct (resolve d "NS" ≫= comprehension target).
Qed.

Lemma check_zone_transfer_one_record xfr d n :
  length (check_zone_transfer xfr d n).2 = 1.
Proof. unfold check_zone_transfer. by destruct (xfr n d). Qed.

Lemma probes_log_length xfr d ns :
  length (flat_map (λ nsrv, (check_zone_transfer xfr d nsrv).2) ns)
  = length ns.
Proof.
  induction ns as [|n ns IH]; [done|]. cbn [flat_map].
  rewrite length_app, check_zone_transfer_one_record, IH. done.
Qed.

Lemma exposed_logged xfr p :
  exposed xfr p = true →
  (check_zone_transfer xfr p.1 p.2).2
  = [(WARNING, ZoneTransferAllowed p.2 p.1)].
Proof.
  unfold exposed, check_zone_transfer. by destruct (xfr p.2 p.1).
Qed.

(** The alert pass logs one record for the NS lookup of each domain of the
    results and one for each probe; it has at most one alert line per probe,
    and every pair that gets an alert line has its WARNING record in the
    log. *)
Theorem alert_pass_log_accounts_for_probes resolve xfr (res : Results) :
  let out := alert_body resolve xfr res in
  length out.2 = length res + length (probed_pairs resolve res) ∧
  length out.1 ≤ length (probed_pairs resolve res) ∧
  Forall (λ p, exposed xfr p = true →
               (WARNING, ZoneTransferAllowed p.2 p.1) ∈ out.2)
         (probed_pairs resolve res).
Proof.
  intros out. subst out. split_and!.
  - unfold alert_body. rewrite alert_loop_log. cbn [snd app].
    unfold probed_pairs, PyDict.items.
    induction res as [|item res IH]; [done|].
    cbn [flat_map]. rewrite !length_app, IH. unfold alert_pass_log.
    rewrite length_app, get_nameservers_one_record, probes_log_length.
    rewrite length_map. cbn [length]. lia.
  - rewrite alert_body_lines, length_map. apply length_filter.
  - apply Forall_forall. intros p Hp Hexp.
    unfold alert_body. rewrite alert_loop_log. cbn [snd app].
    unfold probed_pairs, PyDict.items in Hp.
    apply list_elem_of_In, in_flat_map in Hp as (item & Hitem & Hp).
    apply list_elem_of_In in Hp.
    apply list_elem_of_fmap in Hp as (n & -> & Hn).
    apply list_elem_of_In, in_flat_map. exists item. split; [done|].
    apply list_elem_of_In. unfold alert_pass_log. apply elem_of_app. right.
    apply list_elem_of_In, in_flat_map. exists n.
    split; [by apply list_elem_of_In|].
    apply exposed_logged in Hexp. cbn [fst snd] in Hexp. rewrite Hexp.
    by left.
Qed.

Lemma alert_pass_log_accounts_for_probes_sample :
  (WARNING, ZoneTransferAllowed "ns1.example.com." "y.com")
  ∈ (alert_body Sample.resolver Sample.xfr [("y.com", [])]).2.
Proof.
  pose proof (proj2 (proj2
    (alert_pass_log_accounts_for_probes Sample.resolver Sample.xfr
       [("y.com", [])]))) as H.
  apply Forall_cons in H as [H _]. exact (H eq_refl).
Defined.

Lemma prefix_append (a b : string) : String.prefix a (a +:+ b) = true.
Proof.
  induction a as [|c a IH]; [by destruct b|].
  rewrite append_cons. cbn [String.prefix].
  destruct (ascii_dec c c); [exact IH | done].
Qed.

Lemma concat_prefix (tag : string) (lines : list string) :
  Forall (λ l, String.prefix tag l = true) lines → lines ≠ [] →
  String.prefix tag (String.concat LF lines) = true.
Proof.
  intros Hlines Hne. destruct Hlines as [|l ls Hl _]; [done|].
  destruct ls as [|l' ls]; [done|].
  change (String.concat LF (l :: l' :: ls))
    with (l +:+ LF +:+ String.concat LF (l' :: ls)).
  revert Hl. generalize (LF +:+ String.concat LF (l' :: ls)). clear.
  revert l. induction tag as [|c tag IH]; intros l rest.
  - by destruct (l +:+ rest).
  - destruct l as [|c' l]; [done|]. rewrite append_cons. cbn [String.prefix].
    destruct (ascii_dec c c'); [apply IH | done].
Qed.

(** A call of [main] sends at most one mail, and none unless both
    [--alert-email] and [--smtp-server] are given; a mail it sends has the
    subject ["DNS Suite Alert"], goes to [--to-email] through the given
    server and port, and its text starts with an alert line, so that no
    empty alert is ever sent. *)
Theorem at_most_one_alert_mail w args :
  let r := main w args in
  length (mails r) ≤ 1 ∧
  (Args.alert_email args && truthy (Args.smtp_server args) = false →
     mails r = []) ∧
  Forall (λ m, mail_subject m = "DNS Suite Alert" ∧
               mail_to m = Args.to_email args ∧
               mail_server m = Args.smtp_server args ∧
               mail_port m = Args.smtp_port args ∧
               String.prefix "[ALERT] " (mail_body m) = true)
         (mails r).
Proof.
  intros r.
  assert (mails r = [] ∨ mails r = (alerting w args (results r)).1) as Hm.
  { subst r. unfold main.
    destruct (determine_domains w args) as [[[ds|]|e] l0]; [|by left..].
    destruct (collect _) as [res l1].
    destruct (reporting w args res) as [[reps|e] l2]; [|by left].
    destruct (alerting w args res) as [ms l3] eqn:Ha.
    right. cbn [mails results]. by rewrite Ha. }
  generalize dependent (results r). intros res Hm.
  assert ((alerting w args res).1 = []
          ∨ Args.alert_email args && truthy (Args.smtp_server args) = true
            ∧ ∃ text, String.prefix "[ALERT] " text = true
              ∧ (alerting w args res).1
                = [{| mail_server := Args.smtp_server args;
                      mail_port := Args.smtp_port args;
                      mail_user := Args.smtp_user args;
                      mail_password := Args.smtp_pass args;
                      mail_to := Args.to_email args;
                      mail_subject := "DNS Suite Alert";
                      mail_body := text |}]) as Ha.
  { unfold alerting.
    destruct (Args.alert_email args && truthy (Args.smtp_server args));
      [|by left].
    pose proof (decide_alert_eq (alert_resolver w) (xfr_client w) res) as Hd.
    destruct (decide_alert (alert_resolver w) (xfr_client w) res)
      as [[text|] l]; [|by left].
    right. split; [done|]. exists text. split; [|done].
    cbn [fst] in Hd. rewrite alert_body_lines in Hd.
    destruct (nonempty_list _) eqn:Hne; [|done]. injection Hd as ->.
    apply concat_prefix.
    - apply Forall_forall. intros line (p & -> & _)%list_elem_of_fmap.
      apply prefix_append.
    - by apply nonempty_list_true in Hne. }
  destruct Hm as [->| ->].
  { split_and!; [cbn; lia|done|constructor]. }
  destruct Ha as [->|(Hgate & text & Htext & ->)].
  { split_and!; [cbn; lia|done|constructor]. }
  split_and!; [cbn; lia|congruence|]. by repeat constructor.
Qed.

Lemma at_most_one_alert_mail_sample :
  length (mails (main Sample.world (Sample.bulk "domains.txt"))) ≤ 1.
Proof.
  exact (proj1 (at_most_one_alert_mail Sample.world
                  (Sample.bulk "domains.txt"))).
Defined.
